(** * Jobs screen: search filter, saved-jobs toggle, job fetch and application form

    A shallow embedding of [src/midterms/components/screens/Jobs.tsx].

    The component's [useState] cells become the fields of one record
    [State]; every event handler becomes a function on [State].  The two
    effects that leave the component (the blocking alert dialog and the
    timer armed by [setTimeout]) are logged in the same record, together
    with a logical clock in milliseconds.

    JavaScript strings are sequences of UTF-16 code units and are modelled
    as lists of [N].  [String.prototype.toLowerCase] depends on the Unicode
    case tables of the engine; it is a parameter of the development, and
    [JsString.asciiLower] is the instance used to run the handlers on
    concrete ASCII inputs. *)

From Stdlib Require Import String Ascii.
From Stdlib Require Import List Bool Arith NArith ZArith Lia.
Import ListNotations.

(* ------------------------------------------------------------------ *)
(** ** JavaScript strings *)

Module JsString.

Definition jsstring : Type := list N.

(** A string literal of the source, as code units. *)
Fixpoint lit (s : string) : jsstring :=
  match s with
  | EmptyString => []
  | String a r => N_of_ascii a :: lit r
  end.

(** [s === t] on strings. *)
Fixpoint eqb (s t : jsstring) : bool :=
  match s, t with
  | [], [] => true
  | a :: s', b :: t' => N.eqb a b && eqb s' t'
  | _, _ => false
  end.

(** ToBoolean on a string: the empty string is the only falsy one. *)
Definition truthy (s : jsstring) : bool :=
  match s with
  | [] => false
  | _ :: _ => true
  end.

(** WhiteSpace and LineTerminator code points of ECMAScript, the ones
    [String.prototype.trim] strips. *)
Definition isWhiteSpace (c : N) : bool :=
  ((9 <=? c) && (c <=? 13)          (* TAB LF VT FF CR *)
   || (c =? 32)                     (* SPACE *)
   || (c =? 160)                    (* NO-BREAK SPACE *)
   || (c =? 5760)                   (* U+1680 *)
   || ((8192 <=? c) && (c <=? 8202)) (* U+2000 .. U+200A *)
   || (c =? 8232) || (c =? 8233)    (* U+2028 U+2029 *)
   || (c =? 8239)                   (* U+202F *)
   || (c =? 8287)                   (* U+205F *)
   || (c =? 12288)                  (* U+3000 *)
   || (c =? 65279))%N.              (* U+FEFF *)

Fixpoint trimStart (s : jsstring) : jsstring :=
  match s with
  | [] => []
  | c :: r => if isWhiteSpace c then trimStart r else s
  end.

Definition trimEnd (s : jsstring) : jsstring := rev (trimStart (rev s)).

Definition trim (s : jsstring) : jsstring := trimEnd (trimStart s).

(** [s.startsWith(t)]. *)
Fixpoint startsWith (s t : jsstring) {struct t} : bool :=
  match t, s with
  | [], _ => true
  | _ :: _, [] => false
  | b :: t', a :: s' => N.eqb a b && startsWith s' t'
  end.

(** [s.includes(t)]: [t] occurs in [s] at some position. *)
Fixpoint includes (s t : jsstring) : bool :=
  startsWith s t ||
  match s with
  | [] => false
  | _ :: s' => includes s' t
  end.

(** [t] is a substring of [s]. *)
Definition Substring (t s : jsstring) : Prop :=
  exists pre post, s = pre ++ t ++ post.

(** Lower-casing restricted to the ASCII letters; code units outside
    [A-Z] are left alone. *)
Definition asciiLowerUnit (c : N) : N :=
  if ((65 <=? c) && (c <=? 90))%N then (c + 32)%N else c.

Definition asciiLower (s : jsstring) : jsstring := map asciiLowerUnit s.

End JsString.

Import JsString.

(* ------------------------------------------------------------------ *)
(** ** Regular expressions

    The two patterns of [validateForm] use character classes, literals,
    concatenation and bounded or unbounded repetition.  Both are anchored
    with [^] and [$] and carry no flag, so [RegExp.prototype.test] holds
    exactly when the whole string is in the language of the pattern.
    [test] decides this with Brzozowski derivatives; [Lang] is the
    language itself. *)

Module Regex.

Inductive regex : Type :=
| Void : regex
| Eps : regex
| Class : (N -> bool) -> regex
| Seq : regex -> regex -> regex
| Alt : regex -> regex -> regex
| Star : regex -> regex.

(** A literal character. *)
Definition Chr (c : N) : regex := Class (N.eqb c).

(** [r+] *)
Definition Plus (r : regex) : regex := Seq r (Star r).

(** [r{n}] *)
Fixpoint Repeat (n : nat) (r : regex) : regex :=
  match n with
  | O => Eps
  | S k => Seq r (Repeat k r)
  end.

(** [r{n,}] *)
Definition AtLeast (n : nat) (r : regex) : regex := Seq (Repeat n r) (Star r).

Fixpoint nullable (r : regex) : bool :=
  match r with
  | Void => false
  | Eps => true
  | Class _ => false
  | Seq r1 r2 => nullable r1 && nullable r2
  | Alt r1 r2 => nullable r1 || nullable r2
  | Star _ => true
  end.

Fixpoint deriv (c : N) (r : regex) : regex :=
  match r with
  | Void => Void
  | Eps => Void
  | Class p => if p c then Eps else Void
  | Seq r1 r2 =>
      if nullable r1
      then Alt (Seq (deriv c r1) r2) (deriv c r2)
      else Seq (deriv c r1) r2
  | Alt r1 r2 => Alt (deriv c r1) (deriv c r2)
  | Star r1 => Seq (deriv c r1) (Star r1)
  end.

(** [/^r$/.test(s)] *)
Fixpoint test (r : regex) (s : jsstring) : bool :=
  match s with
  | [] => nullable r
  | c :: s' => test (deriv c r) s'
  end.

Inductive Lang : regex -> jsstring -> Prop :=
| LEps : Lang Eps []
| LClass : forall p c, p c = true -> Lang (Class p) [c]
| LSeq : forall r1 r2 s1 s2, Lang r1 s1 -> Lang r2 s2 -> Lang (Seq r1 r2) (s1 ++ s2)
| LAltL : forall r1 r2 s, Lang r1 s -> Lang (Alt r1 r2) s
| LAltR : forall r1 r2 s, Lang r2 s -> Lang (Alt r1 r2) s
| LStarNil : forall r, Lang (Star r) []
| LStarCons : forall r s1 s2, Lang r s1 -> Lang (Star r) s2 -> Lang (Star r) (s1 ++ s2).

(** The character classes of the source patterns. *)
Definition isDigit (c : N) : bool := ((48 <=? c) && (c <=? 57))%N.      (* \d, 0-9 *)
Definition isLower (c : N) : bool := ((97 <=? c) && (c <=? 122))%N.     (* a-z *)
Definition isUpper (c : N) : bool := ((65 <=? c) && (c <=? 90))%N.      (* A-Z *)
Definition isAlpha (c : N) : bool := isLower c || isUpper c.            (* [a-zA-Z] *)

(** [[a-zA-Z0-9._%+-]] *)
Definition isLocalChar (c : N) : bool :=
  isLower c || isUpper c || isDigit c
  || (c =? 46)%N || (c =? 95)%N || (c =? 37)%N || (c =? 43)%N || (c =? 45)%N.

(** [[a-zA-Z0-9.-]] *)
Definition isDomainChar (c : N) : bool :=
  isLower c || isUpper c || isDigit c || (c =? 46)%N || (c =? 45)%N.

End Regex.

Import Regex.

(* ------------------------------------------------------------------ *)
(** ** Data model *)

(** [interface Job] *)
Record Job : Type := mkJob {
  id : jsstring;
  title : jsstring;
  companyName : jsstring;
  mainCategory : jsstring;
  jobType : jsstring;
  workModel : jsstring;
  seniorityLevel : jsstring
}.

(** [{ ...job, id: v }] *)
Definition withId (v : jsstring) (job : Job) : Job :=
  mkJob v (title job) (companyName job) (mainCategory job)
        (jobType job) (workModel job) (seniorityLevel job).

(** The object held by the [errors] cell. *)
Module Errors.
Record t : Type := mk {
  name : jsstring;
  email : jsstring;
  contactNumber : jsstring;
  whyHire : jsstring
}.

(** [{ name: '', email: '', contactNumber: '', whyHire: '' }] *)
Definition empty : t := mk [] [] [] [].

Definition setName (v : jsstring) (e : t) : t :=
  mk v (email e) (contactNumber e) (whyHire e).
Definition setEmail (v : jsstring) (e : t) : t :=
  mk (name e) v (contactNumber e) (whyHire e).
Definition setContactNumber (v : jsstring) (e : t) : t :=
  mk (name e) (email e) v (whyHire e).
Definition setWhyHire (v : jsstring) (e : t) : t :=
  mk (name e) (email e) (contactNumber e) v.
End Errors.

(** The thirteen [useState] cells of [JobsScreen], followed by the effects
    the component has on its environment: the alerts raised so far (title
    and message, oldest first), the logical clock in milliseconds, and the
    due times of the armed timers.  Every timer of the component runs the
    same callback, [setModalVisible(false)]. *)
Record State : Type := mkState {
  jobs : list Job;
  filteredJobs : list Job;
  searchTerm : jsstring;
  savedJobs : list Job;
  modalVisible : bool;
  selectedJob : option Job;
  name : jsstring;
  email : jsstring;
  contactNumber : jsstring;
  whyHire : jsstring;
  feedbackMessage : jsstring;
  errors : Errors.t;
  isLoading : bool;
  alerts : list (jsstring * jsstring);
  clock : N;
  timers : list N
}.

(** The state after the first render. *)
Definition initialState : State :=
  mkState [] [] [] [] false None [] [] [] [] [] Errors.empty false [] 0%N [].

Definition setJobs (v : list Job) (s : State) : State :=
  let '(mkState _ b c d e f g h i j k l m n o p) := s in mkState v b c d e f g h i j k l m n o p.
Definition setFilteredJobs (v : list Job) (s : State) : State :=
  let '(mkState a _ c d e f g h i j k l m n o p) := s in mkState a v c d e f g h i j k l m n o p.
Definition setSearchTerm (v : jsstring) (s : State) : State :=
  let '(mkState a b _ d e f g h i j k l m n o p) := s in mkState a b v d e f g h i j k l m n o p.
Definition setSavedJobs (upd : list Job -> list Job) (s : State) : State :=
  let '(mkState a b c d e f g h i j k l m n o p) := s in mkState a b c (upd d) e f g h i j k l m n o p.
Definition setModalVisible (v : bool) (s : State) : State :=
  let '(mkState a b c d _ f g h i j k l m n o p) := s in mkState a b c d v f g h i j k l m n o p.
Definition setSelectedJob (v : option Job) (s : State) : State :=
  let '(mkState a b c d e _ g h i j k l m n o p) := s in mkState a b c d e v g h i j k l m n o p.
Definition setName (v : jsstring) (s : State) : State :=
  let '(mkState a b c d e f _ h i j k l m n o p) := s in mkState a b c d e f v h i j k l m n o p.
Definition setEmail (v : jsstring) (s : State) : State :=
  let '(mkState a b c d e f g _ i j k l m n o p) := s in mkState a b c d e f g v i j k l m n o p.
Definition setContactNumber (v : jsstring) (s : State) : State :=
  let '(mkState a b c d e f g h _ j k l m n o p) := s in mkState a b c d e f g h v j k l m n o p.
Definition setWhyHire (v : jsstring) (s : State) : State :=
  let '(mkState a b c d e f g h i _ k l m n o p) := s in mkState a b c d e f g h i v k l m n o p.
Definition setFeedbackMessage (v : jsstring) (s : State) : State :=
  let '(mkState a b c d e f g h i j _ l m n o p) := s in mkState a b c d e f g h i j v l m n o p.
Definition setErrors (v : Errors.t) (s : State) : State :=
  let '(mkState a b c d e f g h i j k _ m n o p) := s in mkState a b c d e f g h i j k v m n o p.
Definition setIsLoading (v : bool) (s : State) : State :=
  let '(mkState a b c d e f g h i j k l _ n o p) := s in mkState a b c d e f g h i j k l v n o p.

(** [Alert.alert(title, message)] *)
Definition alert (ttl msg : jsstring) (s : State) : State :=
  let '(mkState a b c d e f g h i j k l m n o p) := s in
  mkState a b c d e f g h i j k l m (n ++ [(ttl, msg)]) o p.

(** [setTimeout(() => setModalVisible(false), delay)] *)
Definition setTimeout (delay : N) (s : State) : State :=
  let '(mkState a b c d e f g h i j k l m n o p) := s in
  mkState a b c d e f g h i j k l m n o (p ++ [(o + delay)%N]).

(** [delay] milliseconds pass: the timers that are due by then run their
    callback and are disarmed. *)
Definition elapse (delay : N) (s : State) : State :=
  let '(mkState a b c d e f g h i j k l m n o p) := s in
  let t := (o + delay)%N in
  let fired := existsb (fun due => (due <=? t)%N) p in
  mkState a b c d (if fired then false else e) f g h i j k l m n t
          (filter (fun due => negb (due <=? t)%N) p).

(* ------------------------------------------------------------------ *)
(** ** Job fetch *)

(** What [response.json()] resolved with, as far as [fetchJobs] looks. *)
Inductive Payload : Type :=
| DataFalsy : Payload                    (* [data] is falsy: null, false, 0 or '' *)
| JobsFalsy : Payload                    (* [data] is truthy, [data.jobs] is absent or falsy *)
| JobsNotArray : Payload                 (* [data.jobs] is truthy and has no [map] method *)
| JobsArray : list Job -> Payload.       (* [data.jobs] is an array of records *)

Inductive FetchOutcome : Type :=
| FetchRejected : FetchOutcome           (* [fetch] rejects: the transport fails *)
| JsonRejected : FetchOutcome            (* [response.json()] rejects: the body does not parse *)
| Resolved : Payload -> FetchOutcome.

(** Completion of a [try] block. *)
Inductive Completion (A : Type) : Type :=
| Normal : A -> Completion A
| Throw : Completion A.
Arguments Normal {A} _.
Arguments Throw {A}.

(** [data.jobs.map((job) => ({ ...job, id: uuid.v4() }))]; [uuid k] is the
    value of the call to [uuid.v4()] number [k] of this fetch. *)
Fixpoint jobsWithIds (uuid : nat -> jsstring) (k : nat) (raw : list Job) : list Job :=
  match raw with
  | [] => []
  | job :: rest => withId (uuid k) job :: jobsWithIds uuid (S k) rest
  end.

(** [fetchJobs] up to its first [await]. *)
Definition fetchJobs_start (s : State) : State := setIsLoading true s.

(** The [try] block of [fetchJobs] once the two awaits have settled. *)
Definition fetchJobs_try (o : FetchOutcome) (uuid : nat -> jsstring) (s : State)
  : Completion State :=
  match o with
  | FetchRejected => Throw
  | JsonRejected => Throw
  | Resolved DataFalsy => Normal (alert (lit "Error") (lit "No jobs found in the response.") s)
  | Resolved JobsFalsy => Normal (alert (lit "Error") (lit "No jobs found in the response.") s)
  | Resolved JobsNotArray => Throw
  | Resolved (JobsArray raw) =>
      let js := jobsWithIds uuid 0 raw in
      Normal (setFilteredJobs js (setJobs js s))
  end.

(** [fetchJobs] from its first [await] on: [try], [catch], [finally]. *)
Definition fetchJobs_settle (o : FetchOutcome) (uuid : nat -> jsstring) (s : State) : State :=
  let s1 :=
    match fetchJobs_try o uuid s with
    | Normal s' => s'
    | Throw => alert (lit "Error") (lit "Failed to fetch jobs.") s
    end in
  setIsLoading false s1.

(* ------------------------------------------------------------------ *)
(** ** Saved jobs *)

(** [Array.prototype.findIndex]: the first index whose element satisfies
    [p], or [-1]. *)
Fixpoint findIndex {A : Type} (p : A -> bool) (l : list A) : Z :=
  match l with
  | [] => (-1)%Z
  | x :: r =>
      if p x then 0%Z
      else let i := findIndex p r in
           if (i <? 0)%Z then (-1)%Z else (i + 1)%Z
  end.

(** The array left by [l.splice(i, 1)] for an index [i] in range. *)
Definition splice1 {A : Type} (i : nat) (l : list A) : list A :=
  firstn i l ++ skipn (S i) l.

(** The updater [handleSaveJob] passes to [setSavedJobs]. *)
Definition toggleSaved (job : Job) (prevSavedJobs : list Job) : list Job :=
  let jobIndex := findIndex (fun savedJob => eqb (id savedJob) (id job)) prevSavedJobs in
  if (jobIndex >=? 0)%Z
  then splice1 (Z.to_nat jobIndex) prevSavedJobs
  else prevSavedJobs ++ [job].

Definition handleSaveJob (job : Job) (s : State) : State :=
  setSavedJobs (toggleSaved job) s.

(** [savedJobs.some(savedJob => savedJob.id === item.id)], the membership
    test of [renderJobItem]. *)
Definition isSaved (saved : list Job) (item : Job) : bool :=
  existsb (fun savedJob => eqb (id savedJob) (id item)) saved.

(* ------------------------------------------------------------------ *)
(** ** Search filter *)

Section SearchFilter.

(** [String.prototype.toLowerCase] of the engine. *)
Variable toLowerCase : jsstring -> jsstring.

(** The predicate [filterJobs] passes to [jobs.filter]. *)
Definition matchesTerm (term : jsstring) (job : Job) : bool :=
  includes (toLowerCase (title job)) (toLowerCase term)
  || includes (toLowerCase (companyName job)) (toLowerCase term).

Definition filterJobs (term : jsstring) (s : State) : State :=
  let filtered := filter (matchesTerm term) (jobs s) in
  setFilteredJobs filtered s.

Definition handleSearchChange (text : jsstring) (s : State) : State :=
  filterJobs text (setSearchTerm text s).

(** What the specification asks of a job for the term [t]: the lower-cased
    [t] is a substring of the lower-cased title or company name. *)
Definition SpecMatch (t : jsstring) (j : Job) : Prop :=
  Substring (toLowerCase t) (toLowerCase (title j))
  \/ Substring (toLowerCase t) (toLowerCase (companyName j)).

End SearchFilter.

(** [Selects P l l']: [l'] keeps exactly the elements of [l] that satisfy
    [P], in the order and with the multiplicity they have in [l]. *)
Inductive Selects {A : Type} (P : A -> Prop) : list A -> list A -> Prop :=
| SelNil : Selects P [] []
| SelKeep : forall x l l', P x -> Selects P l l' -> Selects P (x :: l) (x :: l')
| SelDrop : forall x l l', ~ P x -> Selects P l l' -> Selects P (x :: l) l'.

(* ------------------------------------------------------------------ *)
(** ** Application form *)

Definition handleApplyPress (job : Job) (s : State) : State :=
  setFeedbackMessage (lit "") (setModalVisible true (setSelectedJob (Some job) s)).

(** [/^[a-zA-Z0-9._%+-]+@[a-zA-Z0-9.-]+\.[a-zA-Z]{2,}$/] *)
Definition emailPattern : regex :=
  Seq (Plus (Class isLocalChar))
  (Seq (Chr 64)
  (Seq (Plus (Class isDomainChar))
  (Seq (Chr 46)
       (AtLeast 2 (Class isAlpha))))).

(** [/^09\d{9}$/] *)
Definition contactNumberPattern : regex :=
  Seq (Chr 48) (Seq (Chr 57) (Repeat 9 (Class isDigit))).

(** The two mutable locals of [validateForm]. *)
Definition Locals : Type := (bool * Errors.t)%type.

Definition checkName (name : jsstring) (loc : Locals) : Locals :=
  let '(formIsValid, formErrors) := loc in
  if negb (truthy (trim name))
  then (false, Errors.setName (lit "Name is required.") formErrors)
  else (formIsValid, formErrors).

Definition checkEmail (email : jsstring) (loc : Locals) : Locals :=
  let '(formIsValid, formErrors) := loc in
  if negb (truthy (trim email))
  then (false, Errors.setEmail (lit "Email is required.") formErrors)
  else if negb (test emailPattern email)
  then (false, Errors.setEmail (lit "Please enter a valid email address.") formErrors)
  else (formIsValid, formErrors).

Definition checkContactNumber (contactNumber : jsstring) (loc : Locals) : Locals :=
  let '(formIsValid, formErrors) := loc in
  if negb (truthy (trim contactNumber))
  then (false, Errors.setContactNumber (lit "Contact number is required.") formErrors)
  else if negb (test contactNumberPattern contactNumber)
  then (false, Errors.setContactNumber
                 (lit "Please enter a valid contact number (11 digits starting with 09).")
                 formErrors)
  else (formIsValid, formErrors).

Definition checkWhyHire (whyHire : jsstring) (loc : Locals) : Locals :=
  let '(formIsValid, formErrors) := loc in
  if negb (truthy (trim whyHire))
  then (false, Errors.setWhyHire (lit "This field is required.") formErrors)
  else (formIsValid, formErrors).

(** The locals of [validateForm] when it reaches [setErrors]. *)
Definition validateForm_locals (s : State) : Locals :=
  let loc0 : Locals := (true, Errors.empty) in
  let loc1 := checkName (name s) loc0 in
  let loc2 := checkEmail (email s) loc1 in
  let loc3 := checkContactNumber (contactNumber s) loc2 in
  checkWhyHire (whyHire s) loc3.

(** [validateForm]: the returned flag and the state after [setErrors]. *)
Definition validateForm (s : State) : bool * State :=
  let '(formIsValid, formErrors) := validateForm_locals s in
  (formIsValid, setErrors formErrors s).

Definition handleSubmitApplication (s : State) : State :=
  let '(valid, s1) := validateForm s in
  if valid then
    let s2 := setFeedbackMessage (lit "Application submitted successfully!") s1 in
    let s3 := setName (lit "") s2 in
    let s4 := setEmail (lit "") s3 in
    let s5 := setContactNumber (lit "") s4 in
    let s6 := setWhyHire (lit "") s5 in
    let s7 := setErrors Errors.empty s6 in
    setTimeout 2000 s7
  else s1.

Definition handleCloseModal (s : State) : State :=
  let s1 := setModalVisible false s in
  let s2 := setName (lit "") s1 in
  let s3 := setEmail (lit "") s2 in
  let s4 := setContactNumber (lit "") s3 in
  let s5 := setWhyHire (lit "") s4 in
  let s6 := setErrors Errors.empty s5 in
  setFeedbackMessage (lit "") s6.

(** The validation rules, one field at a time. *)
Definition nameValid (v : jsstring) : bool := truthy (trim v).
Definition emailValid (v : jsstring) : bool := truthy (trim v) && test emailPattern v.
Definition contactNumberValid (v : jsstring) : bool :=
  truthy (trim v) && test contactNumberPattern v.
Definition whyHireValid (v : jsstring) : bool := truthy (trim v).

(** The shape the specification gives for a contact number: [09] followed
    by exactly nine digits. *)
Definition ZeroNineThenNineDigits (v : jsstring) : Prop :=
  exists ds, v = lit "09" ++ ds /\ length ds = 9 /\ forallb isDigit ds = true.

(** The shape [local@domain.tld]: a non-empty local part, an at sign, a
    non-empty domain, a dot and a top-level name of two letters or more. *)
Definition LocalAtDomainTld (v : jsstring) : Prop :=
  exists loc dom tld,
    v = loc ++ lit "@" ++ dom ++ lit "." ++ tld
    /\ loc <> [] /\ forallb isLocalChar loc = true
    /\ dom <> [] /\ forallb isDomainChar dom = true
    /\ 2 <= length tld /\ forallb isAlpha tld = true.

(** The four fields, the error messages and the feedback message are empty. *)
Definition formIsBlank (s : State) : Prop :=
  name s = [] /\ email s = [] /\ contactNumber s = [] /\ whyHire s = []
  /\ errors s = Errors.empty /\ feedbackMessage s = [].

(* ------------------------------------------------------------------ *)
(** ** The screen as a transition system *)

Inductive Event : Type :=
| Mount : Event                                            (* the effect hook calls [fetchJobs] *)
| FetchSettled : FetchOutcome -> (nat -> jsstring) -> Event (* the awaits of [fetchJobs] settle *)
| SearchChange : jsstring -> Event                         (* [onChangeText] of the search box *)
| PressSave : Job -> Event
| PressApply : Job -> Event
| ChangeName : jsstring -> Event
| ChangeEmail : jsstring -> Event
| ChangeContactNumber : jsstring -> Event
| ChangeWhyHire : jsstring -> Event
| PressSubmit : Event
| PressClose : Event                                       (* Close button or [onRequestClose] *)
| Elapse : N -> Event.                                     (* time passes *)

Section Screen.

Variable toLowerCase : jsstring -> jsstring.

Definition step (s : State) (e : Event) : State :=
  match e with
  | Mount => fetchJobs_start s
  | FetchSettled o uuid => fetchJobs_settle o uuid s
  | SearchChange text => handleSearchChange toLowerCase text s
  | PressSave job => handleSaveJob job s
  | PressApply job => handleApplyPress job s
  | ChangeName v => setName v s
  | ChangeEmail v => setEmail v s
  | ChangeContactNumber v => setContactNumber v s
  | ChangeWhyHire v => setWhyHire v s
  | PressSubmit => handleSubmitApplication s
  | PressClose => handleCloseModal s
  | Elapse d => elapse d s
  end.

Definition run (es : list Event) (s : State) : State := fold_left step es s.

(** The invariant the specification states for the filtered list. *)
Definition filterConsistent (s : State) : Prop :=
  filteredJobs s = filter (matchesTerm toLowerCase (searchTerm s)) (jobs s).

End Screen.

(* ------------------------------------------------------------------ *)
(** ** Sample data

    Two postings as the endpoint would send them, the identifiers handed
    out to them, and three event traces of the screen. *)

Definition sampleUuid (k : nat) : jsstring := lit "job-" ++ [(48 + N.of_nat k)%N].

Definition rawEngineer : Job :=
  mkJob (lit "") (lit "Engineer") (lit "Acme")
        (lit "IT") (lit "Full-time") (lit "Remote") (lit "Senior").

Definition rawDesigner : Job :=
  mkJob (lit "") (lit "Designer") (lit "Globex")
        (lit "Design") (lit "Part-time") (lit "Hybrid") (lit "Junior").

Definition jobEngineer : Job := withId (sampleUuid 0) rawEngineer.
Definition jobDesigner : Job := withId (sampleUuid 1) rawDesigner.

Definition samplePayload : FetchOutcome := Resolved (JobsArray [rawEngineer; rawDesigner]).

(** The user types into the search box while the fetch is in flight. *)
Definition staleTrace : list Event :=
  [ Mount;
    SearchChange (lit "zzz");
    FetchSettled samplePayload sampleUuid ].

(** The list is loaded, the form is opened on the first posting and filled
    in with valid data. *)
Definition fillTrace : list Event :=
  [ Mount;
    FetchSettled samplePayload sampleUuid;
    PressApply jobEngineer;
    ChangeName (lit "Ann");
    ChangeEmail (lit "a@b.co");
    ChangeContactNumber (lit "09171234567");
    ChangeWhyHire (lit "I ship.") ].

(** The form is submitted, the user types again before the two seconds
    are over, and the timer closes the modal. *)
Definition leakTrace : list Event :=
  fillTrace ++ [ PressSubmit; ChangeName (lit "x"); Elapse 2000 ].

Definition filledForm : State := run asciiLower fillTrace initialState.

(** The same form with the email and the contact number left incomplete. *)
Definition partialForm : State :=
  setContactNumber (lit "0917") (setEmail (lit "a@b") filledForm).

Definition leakState : State := run asciiLower leakTrace initialState.

(* ------------------------------------------------------------------ *)
(** ** Rendering and traces *)

(** [keyExtractor] of the list of postings. *)
Definition keyExtractor (item : Job) : jsstring := id item.

(** The text [renderJobItem] puts on the save button of a row. *)
Definition saveButtonLabel (s : State) (item : Job) : jsstring :=
  if isSaved (savedJobs s) item then lit "Saved" else lit "Save Job".

(** The events that are keystrokes into one of the four form fields. *)
Definition isTyping (e : Event) : bool :=
  match e with
  | ChangeName _ | ChangeEmail _ | ChangeContactNumber _ | ChangeWhyHire _ => true
  | _ => false
  end.

Definition isFetchSettled (e : Event) : bool :=
  match e with
  | FetchSettled _ _ => true
  | _ => false
  end.


(** The error object shown when every field is blank. *)
Definition allRequired : Errors.t :=
  Errors.mk (lit "Name is required.") (lit "Email is required.")
            (lit "Contact number is required.") (lit "This field is required.").

(* ------------------------------------------------------------------ *)
(** ** Facts about strings *)

Lemma eqb_eq (s t : jsstring) : eqb s t = true <-> s = t.
Proof.
  revert t; induction s as [|a s IH]; intros [|b t]; simpl; split;
    try discriminate; try reflexivity.
  - intros H. apply andb_true_iff in H as [Hab Hst].
    apply N.eqb_eq in Hab. apply IH in Hst. now subst.
  - intros H. injection H as -> ->. rewrite N.eqb_refl. now apply IH.
Qed.

Lemma eqb_refl (s : jsstring) : eqb s s = true.
Proof. now apply eqb_eq. Qed.

Lemma eqb_neq (s t : jsstring) : eqb s t = false <-> s <> t.
Proof.
  rewrite <- eqb_eq. destruct (eqb s t); split; congruence.
Qed.

Lemma startsWith_spec (s t : jsstring) :
  startsWith s t = true <-> exists post, s = t ++ post.
Proof.
  revert s; induction t as [|b t IH]; intros s; simpl.
  - split; [intros _; now exists s | reflexivity].
  - destruct s as [|a s].
    + split; [discriminate | intros [post H]; discriminate].
    + rewrite andb_true_iff, N.eqb_eq, IH. split.
      * intros [-> [post ->]]. now exists post.
      * intros [post H]. injection H as -> ->. split; [reflexivity | now exists post].
Qed.

Lemma includes_spec (s t : jsstring) : includes s t = true <-> Substring t s.
Proof.
  unfold Substring. induction s as [|a s IH].
  - cbn [includes]. rewrite orb_false_r, startsWith_spec. split.
    + intros [post H]. now exists [], post.
    + intros [pre [post H]]. destruct pre; [now exists post | discriminate].
  - cbn [includes]. rewrite orb_true_iff, startsWith_spec, IH. split.
    + intros [[post H] | [pre [post H]]].
      * now exists [], post.
      * exists (a :: pre), post. simpl. now rewrite H.
    + intros [pre [post H]]. destruct pre as [|b pre].
      * left. now exists post.
      * right. injection H as _ H. now exists pre, post.
Qed.

Lemma includes_nil (s : jsstring) : includes s [] = true.
Proof. destruct s; reflexivity. Qed.

Lemma trimStart_nil_iff (s : jsstring) :
  trimStart s = [] <-> forallb isWhiteSpace s = true.
Proof.
  induction s as [|c s IH]; simpl.
  - tauto.
  - destruct (isWhiteSpace c); simpl; [exact IH | split; discriminate].
Qed.

Lemma trimStart_head (s : jsstring) :
  trimStart s = [] \/ exists c r, trimStart s = c :: r /\ isWhiteSpace c = false.
Proof.
  induction s as [|c s IH]; simpl.
  - now left.
  - destruct (isWhiteSpace c) eqn:E; [exact IH | right; now exists c, s].
Qed.

Lemma forallb_rev {A : Type} (p : A -> bool) (l : list A) :
  forallb p (rev l) = forallb p l.
Proof.
  induction l as [|x l IH]; simpl; [reflexivity|].
  rewrite forallb_app, IH. simpl. rewrite andb_true_r. apply andb_comm.
Qed.

(** [!v.trim()] holds exactly for the strings made of white space only. *)
Lemma trim_falsy_iff (s : jsstring) :
  truthy (trim s) = false <-> forallb isWhiteSpace s = true.
Proof.
  unfold trim, trimEnd.
  assert (E : forall l : jsstring, truthy (rev l) = false <-> l = []).
  { intros l. destruct l as [|x l]; simpl; [tauto|].
    destruct (rev l ++ [x]) eqn:E0.
    - now apply app_eq_nil in E0 as [_ ?].
    - split; discriminate. }
  rewrite E, trimStart_nil_iff, forallb_rev.
  destruct (trimStart_head s) as [H | [c [r [H Hc]]]].
  - rewrite H. simpl. apply trimStart_nil_iff in H. tauto.
  - rewrite H. simpl. rewrite Hc. simpl. split; [discriminate|].
    intros Hs. apply trimStart_nil_iff in Hs. congruence.
Qed.

Lemma trim_truthy_iff (s : jsstring) :
  truthy (trim s) = true <-> exists c, In c s /\ isWhiteSpace c = false.
Proof.
  split.
  - intros H. destruct (forallb isWhiteSpace s) eqn:E.
    + apply trim_falsy_iff in E. congruence.
    + clear H. induction s as [|c s IH]; simpl in E; [discriminate|].
      destruct (isWhiteSpace c) eqn:Ec; simpl in E.
      * destruct (IH E) as [d [Hd Hw]]. exists d. split; [now right | exact Hw].
      * exists c. split; [now left | exact Ec].
  - intros [c [Hin Hc]]. destruct (truthy (trim s)) eqn:E; [reflexivity|].
    apply trim_falsy_iff in E. rewrite forallb_forall in E.
    specialize (E c Hin). congruence.
Qed.

(* ------------------------------------------------------------------ *)
(** ** Facts about regular expressions *)

Lemma Lang_Seq_inv (r1 r2 : regex) (s : jsstring) :
  Lang (Seq r1 r2) s <-> exists s1 s2, s = s1 ++ s2 /\ Lang r1 s1 /\ Lang r2 s2.
Proof.
  split.
  - intros H. inversion H; subst. now exists s1, s2.
  - intros [s1 [s2 [-> [H1 H2]]]]. now constructor.
Qed.

Lemma Lang_Alt_inv (r1 r2 : regex) (s : jsstring) :
  Lang (Alt r1 r2) s <-> Lang r1 s \/ Lang r2 s.
Proof.
  split.
  - intros H. inversion H; subst; tauto.
  - intros [H | H]; [now apply LAltL | now apply LAltR].
Qed.

Lemma Lang_Class_inv (p : N -> bool) (s : jsstring) :
  Lang (Class p) s <-> exists c, s = [c] /\ p c = true.
Proof.
  split.
  - intros H. inversion H; subst. now exists c.
  - intros [c [-> Hc]]. now constructor.
Qed.

Lemma Lang_Eps_inv (s : jsstring) : Lang Eps s <-> s = [].
Proof.
  split; [intros H; now inversion H | intros ->; constructor].
Qed.

Lemma Lang_Void_inv (s : jsstring) : ~ Lang Void s.
Proof. intros H. inversion H. Qed.

Lemma nullable_spec (r : regex) : nullable r = true <-> Lang r [].
Proof.
  induction r as [| |p|r1 IH1 r2 IH2|r1 IH1 r2 IH2|r IH]; simpl.
  - split; [discriminate | intros H; inversion H].
  - split; [intros _; constructor | reflexivity].
  - split; [discriminate | intros H; inversion H].
  - rewrite andb_true_iff, IH1, IH2, Lang_Seq_inv. split.
    + intros [H1 H2]. now exists [], [].
    + intros [s1 [s2 [E [H1 H2]]]]. symmetry in E.
      apply app_eq_nil in E as [-> ->]. tauto.
  - now rewrite orb_true_iff, IH1, IH2, Lang_Alt_inv.
  - split; [intros _; constructor | reflexivity].
Qed.

(** A non-empty word of [r*] starts with a non-empty word of [r]. *)
Lemma Lang_Star_cons (r : regex) (c : N) (s : jsstring) :
  Lang (Star r) (c :: s) ->
  exists s1 s2, s = s1 ++ s2 /\ Lang r (c :: s1) /\ Lang (Star r) s2.
Proof.
  intros H. remember (Star r) as r' eqn:Er. remember (c :: s) as w eqn:Ew.
  revert s Ew. induction H as [| | | | | |r0 s1 s2 H1 _ H2 IH2]; intros w' Ew;
    try discriminate.
  injection Er as ->. destruct s1 as [|a s1].
  - simpl in Ew. now apply IH2.
  - simpl in Ew. injection Ew as -> <-. now exists s1, s2.
Qed.

Lemma deriv_spec (r : regex) (c : N) (s : jsstring) :
  Lang (deriv c r) s <-> Lang r (c :: s).
Proof.
  revert s. induction r as [| |p|r1 IH1 r2 IH2|r1 IH1 r2 IH2|r IH]; intros s; simpl.
  - split; intros H; inversion H.
  - split; intros H; inversion H.
  - destruct (p c) eqn:E.
    + rewrite Lang_Eps_inv, Lang_Class_inv. split.
      * intros ->. now exists c.
      * intros [d [H Hd]]. now injection H as _ ->.
    + rewrite Lang_Class_inv. split.
      * intros H. inversion H.
      * intros [d [H Hd]]. injection H as -> _. congruence.
  - assert (Hseq : Lang (Seq (deriv c r1) r2) s <->
                   exists s1 s2, s = s1 ++ s2 /\ Lang r1 (c :: s1) /\ Lang r2 s2).
    { rewrite Lang_Seq_inv. split; intros [s1 [s2 [E [H1 H2]]]];
        exists s1, s2; (split; [exact E|]); (split; [now apply IH1 | exact H2]). }
    rewrite (Lang_Seq_inv r1 r2). destruct (nullable r1) eqn:En.
    + rewrite Lang_Alt_inv, Hseq, IH2. split.
      * intros [[s1 [s2 [-> [H1 H2]]]] | H].
        -- now exists (c :: s1), s2.
        -- apply nullable_spec in En. now exists [], (c :: s).
      * intros [[|a s1] [s2 [E [H1 H2]]]].
        -- simpl in E. subst s2. now right.
        -- simpl in E. injection E as <- ->. left. now exists s1, s2.
    + rewrite Hseq. split.
      * intros [s1 [s2 [-> [H1 H2]]]]. now exists (c :: s1), s2.
      * intros [[|a s1] [s2 [E [H1 H2]]]].
        -- apply nullable_spec in H1. congruence.
        -- simpl in E. injection E as <- ->. now exists s1, s2.
  - now rewrite !Lang_Alt_inv, IH1, IH2.
  - rewrite Lang_Seq_inv. split.
    + intros [s1 [s2 [-> [H1 H2]]]]. apply IH in H1.
      change (c :: s1 ++ s2) with ((c :: s1) ++ s2). now constructor.
    + intros H. apply Lang_Star_cons in H as [s1 [s2 [-> [H1 H2]]]].
      exists s1, s2. split; [reflexivity|]. split; [now apply IH | exact H2].
Qed.

(** The derivative matcher decides the language of the pattern. *)
Lemma test_spec (r : regex) (s : jsstring) : test r s = true <-> Lang r s.
Proof.
  revert r. induction s as [|c s IH]; intros r; simpl.
  - apply nullable_spec.
  - now rewrite IH, deriv_spec.
Qed.

Lemma Lang_Chr_inv (c : N) (s : jsstring) : Lang (Chr c) s <-> s = [c].
Proof.
  unfold Chr. rewrite Lang_Class_inv. split.
  - intros [d [-> H]]. apply N.eqb_eq in H. now subst.
  - intros ->. exists c. split; [reflexivity | apply N.eqb_refl].
Qed.

Lemma Lang_Star_Class (p : N -> bool) (s : jsstring) :
  Lang (Star (Class p)) s <-> forallb p s = true.
Proof.
  split.
  - intros H. remember (Star (Class p)) as r eqn:Er.
    induction H as [| | | | | |r0 s1 s2 H1 _ H2 IH2]; try discriminate.
    + reflexivity.
    + injection Er as ->. apply Lang_Class_inv in H1 as [c [-> Hc]].
      simpl. rewrite Hc. now apply IH2.
  - induction s as [|c s IH]; simpl; intros H.
    + constructor.
    + apply andb_true_iff in H as [Hc Hs].
      change (c :: s) with ([c] ++ s). constructor; [now constructor | now apply IH].
Qed.

Lemma Lang_Repeat_Class (p : N -> bool) (n : nat) (s : jsstring) :
  Lang (Repeat n (Class p)) s <-> length s = n /\ forallb p s = true.
Proof.
  revert s. induction n as [|n IH]; intros s; simpl.
  - rewrite Lang_Eps_inv. split.
    + intros ->. now split.
    + intros [H _]. now apply length_zero_iff_nil.
  - rewrite Lang_Seq_inv. split.
    + intros [s1 [s2 [-> [H1 H2]]]]. apply Lang_Class_inv in H1 as [c [-> Hc]].
      apply IH in H2 as [Hl Hp]. simpl. rewrite Hc, Hl. now split.
    + intros [Hl Hp]. destruct s as [|c s]; [discriminate|].
      simpl in Hl, Hp. apply andb_true_iff in Hp as [Hc Hs].
      exists [c], s. split; [reflexivity|]. split.
      * now constructor.
      * apply IH. split; [lia | exact Hs].
Qed.

Lemma Lang_Plus_Class (p : N -> bool) (s : jsstring) :
  Lang (Plus (Class p)) s <-> s <> [] /\ forallb p s = true.
Proof.
  unfold Plus. rewrite Lang_Seq_inv. split.
  - intros [s1 [s2 [-> [H1 H2]]]]. apply Lang_Class_inv in H1 as [c [-> Hc]].
    apply Lang_Star_Class in H2. simpl. rewrite Hc. split; [discriminate | exact H2].
  - intros [Hne Hp]. destruct s as [|c s]; [congruence|].
    simpl in Hp. apply andb_true_iff in Hp as [Hc Hs].
    exists [c], s. split; [reflexivity|].
    split; [now constructor | now apply Lang_Star_Class].
Qed.

Lemma Lang_AtLeast_Class (p : N -> bool) (n : nat) (s : jsstring) :
  Lang (AtLeast n (Class p)) s <-> n <= length s /\ forallb p s = true.
Proof.
  unfold AtLeast. rewrite Lang_Seq_inv. split.
  - intros [s1 [s2 [-> [H1 H2]]]]. apply Lang_Repeat_Class in H1 as [Hl Hp].
    apply Lang_Star_Class in H2. rewrite length_app, forallb_app, Hp, H2.
    split; [lia | reflexivity].
  - intros [Hl Hp]. exists (firstn n s), (skipn n s).
    rewrite <- (firstn_skipn n s) in Hp. rewrite forallb_app in Hp.
    apply andb_true_iff in Hp as [H1 H2].
    split; [now rewrite firstn_skipn|]. split.
    + apply Lang_Repeat_Class. split; [|exact H1]. rewrite length_firstn. lia.
    + now apply Lang_Star_Class.
Qed.

(* ------------------------------------------------------------------ *)
(** ** The two patterns of the form *)

(** [/^09\d{9}$/] holds of the strings made of [09] and nine more digits. *)
Lemma contactNumberPattern_spec (v : jsstring) :
  test contactNumberPattern v = true <-> ZeroNineThenNineDigits v.
Proof.
  rewrite test_spec. unfold contactNumberPattern, ZeroNineThenNineDigits. split.
  - intros H.
    apply Lang_Seq_inv in H as [a [r1 [-> [Ha H]]]]. apply Lang_Chr_inv in Ha as ->.
    apply Lang_Seq_inv in H as [b [ds [-> [Hb H]]]]. apply Lang_Chr_inv in Hb as ->.
    apply Lang_Repeat_Class in H. now exists ds.
  - intros [ds [-> H]]. change (lit "09" ++ ds) with ([48%N] ++ [57%N] ++ ds).
    constructor; [now apply Lang_Chr_inv|].
    constructor; [now apply Lang_Chr_inv | now apply Lang_Repeat_Class].
Qed.

(** The shape [local@domain.tld] the email pattern stands for. *)
Lemma emailPattern_spec (v : jsstring) :
  test emailPattern v = true <-> LocalAtDomainTld v.
Proof.
  rewrite test_spec. unfold emailPattern, LocalAtDomainTld. split.
  - intros H.
    apply Lang_Seq_inv in H as [loc [r1 [-> [Hl H]]]].
    apply Lang_Seq_inv in H as [a [r2 [-> [Ha H]]]]. apply Lang_Chr_inv in Ha as ->.
    apply Lang_Seq_inv in H as [dom [r3 [-> [Hd H]]]].
    apply Lang_Seq_inv in H as [b [tld [-> [Hb Ht]]]]. apply Lang_Chr_inv in Hb as ->.
    apply Lang_Plus_Class in Hl, Hd. apply Lang_AtLeast_Class in Ht.
    exists loc, dom, tld. split; [reflexivity | tauto].
  - intros [loc [dom [tld [-> [Hl1 [Hl2 [Hd1 [Hd2 [Ht1 Ht2]]]]]]]]].
    constructor; [now apply Lang_Plus_Class|].
    constructor; [now apply Lang_Chr_inv|].
    constructor; [now apply Lang_Plus_Class|].
    constructor; [now apply Lang_Chr_inv | now apply Lang_AtLeast_Class].
Qed.

Lemma contactNumberPattern_truthy (v : jsstring) :
  test contactNumberPattern v = true -> truthy (trim v) = true.
Proof.
  intros H. apply contactNumberPattern_spec in H as [ds [-> _]].
  apply trim_truthy_iff. exists 48%N. split; [now left | reflexivity].
Qed.

Lemma emailPattern_truthy (v : jsstring) :
  test emailPattern v = true -> truthy (trim v) = true.
Proof.
  intros H. apply emailPattern_spec in H as [loc [dom [tld [-> _]]]].
  apply trim_truthy_iff. exists 64%N. split; [|reflexivity].
  apply in_or_app. right. now left.
Qed.

Lemma contactNumberValid_test (v : jsstring) :
  contactNumberValid v = test contactNumberPattern v.
Proof.
  unfold contactNumberValid. destruct (test contactNumberPattern v) eqn:E.
  - now rewrite contactNumberPattern_truthy.
  - apply andb_false_r.
Qed.

Lemma emailValid_test (v : jsstring) : emailValid v = test emailPattern v.
Proof.
  unfold emailValid. destruct (test emailPattern v) eqn:E.
  - now rewrite emailPattern_truthy.
  - apply andb_false_r.
Qed.

(* ------------------------------------------------------------------ *)
(** ** [validateForm] *)

Lemma checkName_eq (v : jsstring) (loc : Locals) :
  checkName v loc =
  if nameValid v then loc
  else (false, Errors.setName (lit "Name is required.") (snd loc)).
Proof. unfold checkName, nameValid. destruct loc, (truthy (trim v)); reflexivity. Qed.

Lemma checkEmail_eq (v : jsstring) (loc : Locals) :
  checkEmail v loc =
  if emailValid v then loc
  else (false,
        Errors.setEmail
          (if truthy (trim v) then lit "Please enter a valid email address."
           else lit "Email is required.") (snd loc)).
Proof.
  unfold checkEmail, emailValid.
  destruct loc, (truthy (trim v)), (test emailPattern v); reflexivity.
Qed.

Lemma checkContactNumber_eq (v : jsstring) (loc : Locals) :
  checkContactNumber v loc =
  if contactNumberValid v then loc
  else (false,
        Errors.setContactNumber
          (if truthy (trim v)
           then lit "Please enter a valid contact number (11 digits starting with 09)."
           else lit "Contact number is required.") (snd loc)).
Proof.
  unfold checkContactNumber, contactNumberValid.
  destruct loc, (truthy (trim v)), (test contactNumberPattern v); reflexivity.
Qed.

Lemma checkWhyHire_eq (v : jsstring) (loc : Locals) :
  checkWhyHire v loc =
  if whyHireValid v then loc
  else (false, Errors.setWhyHire (lit "This field is required.") (snd loc)).
Proof. unfold checkWhyHire, whyHireValid. destruct loc, (truthy (trim v)); reflexivity. Qed.

(** The flag is the conjunction of the four rules. *)
Lemma validateForm_flag (s : State) :
  fst (validateForm_locals s) =
  nameValid (name s) && emailValid (email s)
  && contactNumberValid (contactNumber s) && whyHireValid (whyHire s).
Proof.
  unfold validateForm_locals.
  rewrite checkWhyHire_eq, checkContactNumber_eq, checkEmail_eq, checkName_eq.
  destruct (nameValid (name s)), (emailValid (email s)),
    (contactNumberValid (contactNumber s)), (whyHireValid (whyHire s)); reflexivity.
Qed.

(** Each message depends on its own field only. *)
Lemma validateForm_messages (s : State) :
  let e := snd (validateForm_locals s) in
  Errors.name e = Errors.name (snd (checkName (name s) (true, Errors.empty)))
  /\ Errors.email e = Errors.email (snd (checkEmail (email s) (true, Errors.empty)))
  /\ Errors.contactNumber e =
     Errors.contactNumber (snd (checkContactNumber (contactNumber s) (true, Errors.empty)))
  /\ Errors.whyHire e = Errors.whyHire (snd (checkWhyHire (whyHire s) (true, Errors.empty))).
Proof.
  unfold validateForm_locals.
  rewrite !checkWhyHire_eq, !checkContactNumber_eq, !checkEmail_eq, !checkName_eq.
  destruct (nameValid (name s)), (emailValid (email s)),
    (contactNumberValid (contactNumber s)), (whyHireValid (whyHire s));
    repeat split; reflexivity.
Qed.

Lemma checkName_message (v : jsstring) :
  Errors.name (snd (checkName v (true, Errors.empty))) = [] <-> nameValid v = true.
Proof. rewrite checkName_eq. destruct (nameValid v); simpl; split; congruence. Qed.

Lemma checkEmail_message (v : jsstring) :
  Errors.email (snd (checkEmail v (true, Errors.empty))) = [] <-> emailValid v = true.
Proof.
  rewrite checkEmail_eq.
  destruct (emailValid v), (truthy (trim v)); simpl; split; congruence.
Qed.

Lemma checkContactNumber_message (v : jsstring) :
  Errors.contactNumber (snd (checkContactNumber v (true, Errors.empty))) = []
  <-> contactNumberValid v = true.
Proof.
  rewrite checkContactNumber_eq.
  destruct (contactNumberValid v), (truthy (trim v)); simpl; split; congruence.
Qed.

Lemma checkWhyHire_message (v : jsstring) :
  Errors.whyHire (snd (checkWhyHire v (true, Errors.empty))) = [] <-> whyHireValid v = true.
Proof. rewrite checkWhyHire_eq. destruct (whyHireValid v); simpl; split; congruence. Qed.

Lemma validateForm_fst (s : State) : fst (validateForm s) = fst (validateForm_locals s).
Proof. unfold validateForm. now destruct (validateForm_locals s). Qed.

Lemma validateForm_snd (s : State) :
  snd (validateForm s) = setErrors (snd (validateForm_locals s)) s.
Proof. unfold validateForm. now destruct (validateForm_locals s). Qed.

Lemma errors_setErrors (e : Errors.t) (s : State) : errors (setErrors e s) = e.
Proof. now destruct s. Qed.

(* ------------------------------------------------------------------ *)
(** ** Saved jobs *)

Lemma findIndex_absent {A : Type} (p : A -> bool) (l : list A) :
  existsb p l = false -> findIndex p l = (-1)%Z.
Proof.
  induction l as [|x l IH]; simpl; [reflexivity|].
  intros H. apply orb_false_iff in H as [Hx Hl].
  rewrite Hx, (IH Hl). reflexivity.
Qed.

Lemma findIndex_present {A : Type} (p : A -> bool) (l : list A) :
  existsb p l = true ->
  exists pre x post,
    l = pre ++ x :: post /\ p x = true
    /\ forallb (fun y => negb (p y)) pre = true
    /\ findIndex p l = Z.of_nat (length pre).
Proof.
  induction l as [|x l IH]; simpl; [discriminate|].
  destruct (p x) eqn:Hx; simpl.
  - intros _. exists [], x, l. now repeat split.
  - intros H. destruct (IH H) as [pre [y [post [-> [Hy [Hpre Hi]]]]]].
    exists (x :: pre), y, post. repeat split; try assumption.
    + simpl. now rewrite Hx.
    + rewrite Hi. destruct (Z.ltb_spec (Z.of_nat (length pre)) 0); [lia|].
      simpl length. lia.
Qed.

Lemma splice1_middle {A : Type} (pre : list A) (x : A) (post : list A) :
  splice1 (length pre) (pre ++ x :: post) = pre ++ post.
Proof.
  unfold splice1. induction pre as [|y pre IH]; simpl; [reflexivity|].
  f_equal. exact IH.
Qed.

Lemma filter_id {A : Type} (p : A -> bool) (l : list A) :
  forallb p l = true -> filter p l = l.
Proof.
  induction l as [|x l IH]; simpl; [reflexivity|].
  intros H. apply andb_true_iff in H as [Hx Hl]. now rewrite Hx, IH.
Qed.

Lemma NoDup_snoc {A : Type} (l : list A) (a : A) :
  NoDup l -> ~ In a l -> NoDup (l ++ [a]).
Proof.
  induction l as [|x l IH]; simpl; intros Hnd Hin.
  - constructor; [intros [] | constructor].
  - inversion Hnd as [|? ? Hx Hl]; subst. constructor.
    + rewrite in_app_iff. simpl. intros [H | [H | []]]; [now apply Hx | subst; tauto].
    + apply IH; tauto.
Qed.

Lemma isSaved_In (saved : list Job) (item : Job) :
  isSaved saved item = true <-> In (id item) (map id saved).
Proof.
  unfold isSaved. rewrite existsb_exists, in_map_iff. split.
  - intros [x [Hin Hx]]. apply eqb_eq in Hx. now exists x.
  - intros [x [Hx Hin]]. exists x. split; [exact Hin | now apply eqb_eq].
Qed.

Lemma isSaved_not_In (saved : list Job) (item : Job) :
  isSaved saved item = false <-> ~ In (id item) (map id saved).
Proof.
  rewrite <- isSaved_In. destruct (isSaved saved item); split; congruence.
Qed.

(** Membership is a matter of identifiers only. *)
Lemma isSaved_ext (l1 l2 : list Job) :
  (forall i, In i (map id l1) <-> In i (map id l2)) ->
  forall item, isSaved l1 item = isSaved l2 item.
Proof.
  intros H item. destruct (isSaved l2 item) eqn:E.
  - apply isSaved_In. apply H. now apply isSaved_In.
  - apply isSaved_not_In. rewrite H. now apply isSaved_not_In.
Qed.

(** A job whose identifier is not saved is appended. *)
Lemma toggleSaved_absent (job : Job) (saved : list Job) :
  isSaved saved job = false -> toggleSaved job saved = saved ++ [job].
Proof.
  unfold isSaved, toggleSaved. intros H. now rewrite (findIndex_absent _ _ H).
Qed.

(** Otherwise the first entry with its identifier is taken out. *)
Lemma toggleSaved_present (job : Job) (saved : list Job) :
  isSaved saved job = true ->
  exists pre x post,
    saved = pre ++ x :: post /\ id x = id job
    /\ forallb (fun y => negb (eqb (id y) (id job))) pre = true
    /\ toggleSaved job saved = pre ++ post.
Proof.
  unfold isSaved, toggleSaved. intros H.
  destruct (findIndex_present _ _ H) as [pre [x [post [E [Hx [Hpre Hi]]]]]].
  exists pre, x, post. repeat split; try assumption.
  - now apply eqb_eq.
  - rewrite Hi. destruct (Z.geb_spec (Z.of_nat (length pre)) 0); [|lia].
    rewrite Nat2Z.id, E. apply splice1_middle.
Qed.

(** With one entry per identifier, taking the first match out takes every
    match out. *)
Lemma toggleSaved_present_unique (job : Job) (saved : list Job) :
  NoDup (map id saved) -> isSaved saved job = true ->
  toggleSaved job saved = filter (fun y => negb (eqb (id y) (id job))) saved
  /\ length (filter (fun y => eqb (id y) (id job)) saved) = 1
  /\ S (length (toggleSaved job saved)) = length saved.
Proof.
  intros Hnd H.
  destruct (toggleSaved_present _ _ H) as [pre [x [post [-> [Hx [Hpre Ht]]]]]].
  rewrite map_app in Hnd. simpl in Hnd. apply NoDup_remove_2 in Hnd.
  assert (Hpost : forallb (fun y => negb (eqb (id y) (id job))) post = true).
  { apply forallb_forall. intros y Hy. apply negb_true_iff, eqb_neq.
    intros Ey. apply Hnd. apply in_or_app. right. rewrite Hx, <- Ey. now apply in_map. }
  assert (Hnone : forall l, forallb (fun y => negb (eqb (id y) (id job))) l = true ->
                            filter (fun y => eqb (id y) (id job)) l = []).
  { induction l as [|y l IH]; simpl; [reflexivity|]. intros Hl.
    apply andb_true_iff in Hl as [Hy Hl]. apply negb_true_iff in Hy.
    now rewrite Hy, IH. }
  rewrite Ht, !filter_app. simpl. rewrite Hx, eqb_refl. simpl.
  rewrite !filter_id, !Hnone by assumption. repeat split.
  rewrite !length_app. simpl. lia.
Qed.

Lemma toggleSaved_NoDup (job : Job) (saved : list Job) :
  NoDup (map id saved) -> NoDup (map id (toggleSaved job saved)).
Proof.
  intros Hnd. destruct (isSaved saved job) eqn:E.
  - destruct (toggleSaved_present _ _ E) as [pre [x [post [-> [_ [_ ->]]]]]].
    rewrite map_app in *. simpl in Hnd. now apply NoDup_remove_1 in Hnd.
  - rewrite (toggleSaved_absent _ _ E), map_app. simpl.
    apply isSaved_not_In in E. now apply NoDup_snoc.
Qed.

Lemma toggleSaved_twice_membership (job : Job) (saved : list Job) :
  NoDup (map id saved) ->
  forall item, isSaved (toggleSaved job (toggleSaved job saved)) item = isSaved saved item.
Proof.
  intros Hnd. destruct (isSaved saved job) eqn:E.
  - destruct (toggleSaved_present_unique _ _ Hnd E) as [Hf _].
    destruct (toggleSaved_present _ _ E) as [pre [x [post [Es [Hx [_ Ht]]]]]].
    assert (Habs : isSaved (toggleSaved job saved) job = false).
    { rewrite Hf. apply isSaved_not_In. rewrite in_map_iff. intros [y [Ey Hy]].
      apply filter_In in Hy as [_ Hy]. apply negb_true_iff, eqb_neq in Hy. congruence. }
    rewrite (toggleSaved_absent _ _ Habs), Ht, Es. apply isSaved_ext. intros i.
    rewrite !map_app. simpl. rewrite !in_app_iff. simpl. rewrite Hx. tauto.
  - rewrite (toggleSaved_absent _ _ E).
    assert (Hpres : isSaved (saved ++ [job]) job = true).
    { apply isSaved_In. rewrite map_app. apply in_or_app. right. now left. }
    destruct (toggleSaved_present _ _ Hpres) as [pre [x [post [Es [Hx [Hpre Ht]]]]]].
    intros item. rewrite Ht. clear Ht Hpres.
    assert (Hsaved : forallb (fun y => negb (eqb (id y) (id job))) saved = true).
    { apply forallb_forall. intros y Hy. apply negb_true_iff, eqb_neq. intros Ey.
      apply isSaved_not_In in E. apply E. rewrite <- Ey. now apply in_map. }
    assert (Epre : pre = saved /\ post = []).
    { clear E Hnd. revert pre Es Hpre. induction saved as [|y saved IH]; intros pre Es Hpre.
      - destruct pre as [|z pre]; simpl in Es.
        + injection Es as _ <-. now split.
        + injection Es as _ Es. now destruct pre.
      - simpl in Hsaved. apply andb_true_iff in Hsaved as [Hy Hs].
        destruct pre as [|z pre]; simpl in Es.
        + injection Es as <- _. apply negb_true_iff, eqb_neq in Hy. congruence.
        + injection Es as <- Es. simpl in Hpre. apply andb_true_iff in Hpre as [_ Hpre].
          destruct (IH Hs pre Es Hpre) as [-> ->]. now split. }
    destruct Epre as [-> ->]. now rewrite app_nil_r.
Qed.

(** Toggling an absent job twice gives the very same array back. *)
Lemma toggleSaved_twice_absent (job : Job) (saved : list Job) :
  isSaved saved job = false -> toggleSaved job (toggleSaved job saved) = saved.
Proof.
  intros E. rewrite (toggleSaved_absent _ _ E).
  assert (Hpres : isSaved (saved ++ [job]) job = true).
  { apply isSaved_In. rewrite map_app. apply in_or_app. right. now left. }
  unfold toggleSaved. unfold isSaved in E.
  assert (Hi : findIndex (fun savedJob => eqb (id savedJob) (id job)) (saved ++ [job])
               = Z.of_nat (length saved)).
  { induction saved as [|y saved IH]; simpl.
    - now rewrite eqb_refl.
    - simpl in E. apply orb_false_iff in E as [Hy Hs]. rewrite Hy, (IH Hs).
      + destruct (Z.ltb_spec (Z.of_nat (length saved)) 0); lia.
      + apply isSaved_In. rewrite map_app. apply in_or_app. right. now left. }
  rewrite Hi. destruct (Z.geb_spec (Z.of_nat (length saved)) 0); [|lia].
  rewrite Nat2Z.id. rewrite splice1_middle. apply app_nil_r.
Qed.

Lemma savedJobs_handleSaveJob (job : Job) (s : State) :
  savedJobs (handleSaveJob job s) = toggleSaved job (savedJobs s).
Proof. now destruct s. Qed.

Lemma savedJobs_fold (ops : list Job) (s : State) :
  savedJobs (fold_left (fun st job => handleSaveJob job st) ops s)
  = fold_left (fun saved job => toggleSaved job saved) ops (savedJobs s).
Proof.
  revert s. induction ops as [|job ops IH]; intros s; simpl; [reflexivity|].
  now rewrite IH, savedJobs_handleSaveJob.
Qed.

Lemma toggles_NoDup (ops : list Job) (saved : list Job) :
  NoDup (map id saved) ->
  NoDup (map id (fold_left (fun acc job => toggleSaved job acc) ops saved)).
Proof.
  revert saved. induction ops as [|job ops IH]; intros saved H; simpl; [exact H|].
  apply IH. now apply toggleSaved_NoDup.
Qed.

(** Every array without repeated identifiers is reached from the empty
    one: toggle its entries in order. *)
Lemma NoDup_reached_by_toggles (saved : list Job) :
  NoDup (map id saved) ->
  fold_left (fun acc job => toggleSaved job acc) saved [] = saved.
Proof.
  intros H.
  assert (G : forall done rest, NoDup (map id (done ++ rest)) ->
              fold_left (fun acc job => toggleSaved job acc) rest done = done ++ rest).
  { intros done rest. revert done. induction rest as [|job rest IH]; intros done Hnd; simpl.
    - now rewrite app_nil_r.
    - assert (E : isSaved done job = false).
      { apply isSaved_not_In. rewrite map_app in Hnd. simpl in Hnd.
        apply NoDup_remove_2 in Hnd. intros Hin. apply Hnd. apply in_or_app. now left. }
      rewrite (toggleSaved_absent _ _ E), IH.
      + now rewrite <- app_assoc.
      + now rewrite <- app_assoc. }
  apply (G [] saved H).
Qed.

(* ------------------------------------------------------------------ *)
(** ** Search filter *)

Section FilterFacts.

Variable toLowerCase : jsstring -> jsstring.

Lemma matchesTerm_spec (term : jsstring) (job : Job) :
  matchesTerm toLowerCase term job = true <-> SpecMatch toLowerCase term job.
Proof.
  unfold matchesTerm, SpecMatch. now rewrite orb_true_iff, !includes_spec.
Qed.

Lemma filteredJobs_filterJobs (term : jsstring) (s : State) :
  filteredJobs (filterJobs toLowerCase term s)
  = filter (matchesTerm toLowerCase term) (jobs s).
Proof. now destruct s. Qed.

Lemma jobs_filterJobs (term : jsstring) (s : State) :
  jobs (filterJobs toLowerCase term s) = jobs s.
Proof. now destruct s. Qed.

(** Every keystroke into the search box re-establishes the invariant. *)
Lemma handleSearchChange_consistent (text : jsstring) (s : State) :
  filterConsistent toLowerCase (handleSearchChange toLowerCase text s)
  /\ searchTerm (handleSearchChange toLowerCase text s) = text.
Proof. unfold filterConsistent. now destruct s. Qed.

(** A fetch that completes while the search box is empty establishes it too. *)
Lemma fetchJobs_settle_consistent_empty
      (o : FetchOutcome) (uuid : nat -> jsstring) (s : State) :
  toLowerCase [] = [] -> searchTerm s = [] -> filterConsistent toLowerCase s ->
  filterConsistent toLowerCase (fetchJobs_settle o uuid s).
Proof.
  unfold filterConsistent. intros Hlow Hterm Hinv.
  destruct s as [a b c d e f g h i j k l m n q p]. simpl in *. subst c.
  destruct o as [| |[| | |raw]]; simpl; try exact Hinv.
  symmetry. apply filter_id. apply forallb_forall. intros x _.
  unfold matchesTerm. now rewrite Hlow, includes_nil.
Qed.

End FilterFacts.

Lemma filter_Selects {A : Type} (p : A -> bool) (P : A -> Prop) (l : list A) :
  (forall x, p x = true <-> P x) -> Selects P l (filter p l).
Proof.
  intros H. induction l as [|x l IH]; simpl.
  - constructor.
  - destruct (p x) eqn:E.
    + constructor; [now apply H | exact IH].
    + apply SelDrop; [|exact IH]. intros HP. apply H in HP. congruence.
Qed.

(** C1. For every held job list and every search term, [filterJobs] stores
    as filtered list exactly the held jobs for which the lower-cased term
    is a substring of the lower-cased title or of the lower-cased company
    name, in their order and multiplicity, and leaves the held list alone;
    the empty term yields the held list unchanged. *)
Theorem filterJobs_selects_matching
        (toLowerCase : jsstring -> jsstring) (Hempty : toLowerCase [] = [])
        (term : jsstring) (s : State) :
  let s' := filterJobs toLowerCase term s in
  Selects (SpecMatch toLowerCase term) (jobs s) (filteredJobs s')
  /\ (forall j, In j (filteredJobs s') <-> In j (jobs s) /\ SpecMatch toLowerCase term j)
  /\ jobs s' = jobs s
  /\ filteredJobs (filterJobs toLowerCase [] s) = jobs s.
Proof.
  cbv zeta. rewrite !filteredJobs_filterJobs, jobs_filterJobs.
  split; [|split; [|split]].
  - apply filter_Selects. intros j. apply matchesTerm_spec.
  - intros j. now rewrite filter_In, matchesTerm_spec.
  - reflexivity.
  - apply filter_id. apply forallb_forall. intros j _.
    unfold matchesTerm. now rewrite Hempty, includes_nil.
Qed.

Lemma filterJobs_selects_matching_witness :
  asciiLower [] = []
  /\ Selects (SpecMatch asciiLower (lit "ACME")) (jobs filledForm)
             (filteredJobs (filterJobs asciiLower (lit "ACME") filledForm))
  /\ filteredJobs (filterJobs asciiLower (lit "ACME") filledForm) = [jobEngineer].
Proof.
  split; [reflexivity|]. split.
  - exact (proj1 (filterJobs_selects_matching asciiLower eq_refl (lit "ACME") filledForm)).
  - vm_compute. reflexivity.
Defined.

(** C4. The filtered list is not always the search filter applied to the
    held list: when the user has typed [zzz] while the fetch was in flight,
    the fetch installs both postings as filtered list although neither
    matches the term. *)
Theorem fetch_leaves_filter_stale :
  let s := run asciiLower staleTrace initialState in
  searchTerm s = lit "zzz"
  /\ jobs s = [jobEngineer; jobDesigner]
  /\ filteredJobs s = [jobEngineer; jobDesigner]
  /\ filter (matchesTerm asciiLower (searchTerm s)) (jobs s) = []
  /\ ~ filterConsistent asciiLower s.
Proof.
  cbv zeta. repeat split; try (vm_compute; reflexivity).
  unfold filterConsistent. intros H. vm_compute in H. discriminate H.
Qed.

(* ------------------------------------------------------------------ *)
(** ** Job fetch *)

(** C3, as stated, fails.  A response whose [jobs] field is present but
    is not an array lacks a well-formed [jobs] field; it passes the guard
    [data && data.jobs], the call of [map] throws inside the [try] block,
    and the handler raises the alert of a transport failure.  From the
    same pending state this response and a rejected [fetch] leave the
    same alerts, indeed the same state: the malformed field does not get
    an error distinct from the one of the transport failure. *)
Lemma fetch_errors_not_distinct :
  let pending := fetchJobs_start initialState in
  alerts (fetchJobs_settle (Resolved JobsNotArray) sampleUuid pending)
  = [(lit "Error", lit "Failed to fetch jobs.")]
  /\ alerts (fetchJobs_settle (Resolved JobsNotArray) sampleUuid pending)
     = alerts (fetchJobs_settle FetchRejected sampleUuid pending)
  /\ fetchJobs_settle (Resolved JobsNotArray) sampleUuid pending
     = fetchJobs_settle FetchRejected sampleUuid pending.
Proof. repeat split. Qed.

(** C3, amended.  For every outcome of the fetch the loading flag, set
    when the fetch starts, is cleared when it settles.  A falsy response,
    or one whose [jobs] field is missing or falsy, raises the alert
    [No jobs found in the response.] and leaves the full and the filtered
    list unchanged.  A transport failure, a body that does not parse, or
    a [jobs] field that is present but is not an array raises the alert
    [Failed to fetch jobs.], a different message, and leaves both lists
    unchanged as well.  An array of postings raises no alert and becomes
    both lists. *)
Theorem fetchJobs_settle_outcomes
        (o : FetchOutcome) (uuid : nat -> jsstring) (s : State) :
  let s' := fetchJobs_settle o uuid s in
  isLoading s' = false
  /\ match o with
     | Resolved (JobsArray raw) =>
         alerts s' = alerts s
         /\ jobs s' = jobsWithIds uuid 0 raw
         /\ filteredJobs s' = jobsWithIds uuid 0 raw
     | Resolved DataFalsy | Resolved JobsFalsy =>
         alerts s' = alerts s ++ [(lit "Error", lit "No jobs found in the response.")]
         /\ jobs s' = jobs s
         /\ filteredJobs s' = filteredJobs s
     | Resolved JobsNotArray | FetchRejected | JsonRejected =>
         alerts s' = alerts s ++ [(lit "Error", lit "Failed to fetch jobs.")]
         /\ jobs s' = jobs s
         /\ filteredJobs s' = filteredJobs s
     end
  /\ lit "No jobs found in the response." <> lit "Failed to fetch jobs."
  /\ isLoading (fetchJobs_start s) = true.
Proof.
  destruct s as [a b c d e f g h i j k l m n q p].
  destruct o as [| |[| | |raw]]; simpl; repeat split; discriminate.
Qed.

(* ------------------------------------------------------------------ *)
(** ** Saved jobs toggle *)

(** C2. In a saved set (no two entries share an identifier) toggling a job
    whose identifier is present removes the entry with that identifier and
    nothing else; toggling a job whose identifier is absent appends the
    full record, which is exactly one more entry.  Toggling the same job
    twice gives back the original membership, and the original array when
    the job was absent. *)
Theorem toggle_save_removes_or_appends
        (saved : list Job) (job : Job) (Hset : NoDup (map id saved)) :
  (isSaved saved job = true ->
     toggleSaved job saved = filter (fun y => negb (eqb (id y) (id job))) saved
     /\ S (length (toggleSaved job saved)) = length saved
     /\ isSaved (toggleSaved job saved) job = false)
  /\ (isSaved saved job = false ->
     toggleSaved job saved = saved ++ [job]
     /\ length (toggleSaved job saved) = S (length saved)
     /\ toggleSaved job (toggleSaved job saved) = saved)
  /\ (forall item,
        isSaved (toggleSaved job (toggleSaved job saved)) item = isSaved saved item)
  /\ (forall s, savedJobs (handleSaveJob job s) = toggleSaved job (savedJobs s)).
Proof.
  split; [|split; [|split]].
  - intros E. destruct (toggleSaved_present_unique _ _ Hset E) as [Hf [_ Hl]].
    split; [exact Hf|]. split; [exact Hl|].
    rewrite Hf. apply isSaved_not_In. rewrite in_map_iff. intros [y [Ey Hy]].
    apply filter_In in Hy as [_ Hy]. apply negb_true_iff, eqb_neq in Hy. congruence.
  - intros E. split; [now apply toggleSaved_absent|]. split.
    + rewrite (toggleSaved_absent _ _ E), length_app. simpl. lia.
    + now apply toggleSaved_twice_absent.
  - now apply toggleSaved_twice_membership.
  - intros s. apply savedJobs_handleSaveJob.
Qed.

Lemma toggle_save_removes_or_appends_witness :
  NoDup (map id [jobEngineer; jobDesigner])
  /\ (forall item,
        isSaved (toggleSaved jobEngineer (toggleSaved jobEngineer [jobEngineer; jobDesigner]))
                item
        = isSaved [jobEngineer; jobDesigner] item)
  /\ toggleSaved jobEngineer [jobEngineer; jobDesigner] = [jobDesigner]
  /\ toggleSaved jobEngineer [jobDesigner] = [jobDesigner; jobEngineer].
Proof.
  assert (H : NoDup (map id [jobEngineer; jobDesigner])).
  { repeat constructor; simpl; intuition discriminate. }
  split; [exact H|]. split.
  - exact (proj1 (proj2 (proj2
             (toggle_save_removes_or_appends [jobEngineer; jobDesigner] jobEngineer H)))).
  - split; reflexivity.
Defined.

(** C10. Starting from the empty saved set, after any sequence of toggles
    no two saved entries share an identifier; in the set so reached a
    toggle appends the record only when its identifier is absent, and
    otherwise removes the one entry that has it. *)
Theorem saved_ids_stay_unique (ops : list Job) :
  let saved := savedJobs (fold_left (fun s job => handleSaveJob job s) ops initialState) in
  NoDup (map id saved)
  /\ (forall job,
        if isSaved saved job
        then length (filter (fun y => eqb (id y) (id job)) saved) = 1
             /\ toggleSaved job saved = filter (fun y => negb (eqb (id y) (id job))) saved
        else toggleSaved job saved = saved ++ [job]).
Proof.
  cbv zeta. rewrite savedJobs_fold. simpl savedJobs.
  assert (H : NoDup (map id (fold_left (fun acc job => toggleSaved job acc) ops []))).
  { apply toggles_NoDup. constructor. }
  split; [exact H|]. intros job.
  destruct (isSaved _ job) eqn:E.
  - destruct (toggleSaved_present_unique _ _ H E) as [Hf [Hc _]]. now split.
  - now apply toggleSaved_absent.
Qed.

(* ------------------------------------------------------------------ *)
(** ** Application form *)

Lemma handleSubmitApplication_invalid (s : State) :
  fst (validateForm s) = false ->
  handleSubmitApplication s = setErrors (snd (validateForm_locals s)) s.
Proof.
  unfold handleSubmitApplication, validateForm.
  destruct (validateForm_locals s) as [ok e]. simpl. now intros ->.
Qed.

Lemma handleSubmitApplication_valid (s : State) :
  fst (validateForm s) = true ->
  handleSubmitApplication s =
  setTimeout 2000
    (setErrors Errors.empty
      (setWhyHire (lit "")
        (setContactNumber (lit "")
          (setEmail (lit "")
            (setName (lit "")
              (setFeedbackMessage (lit "Application submitted successfully!")
                (setErrors (snd (validateForm_locals s)) s))))))).
Proof.
  unfold handleSubmitApplication, validateForm.
  destruct (validateForm_locals s) as [ok e]. simpl. now intros ->.
Qed.

(** C5, as stated, fails: after a successful submit the user types [x]
    into the name field before the timer closes the modal; pressing Apply
    on the other posting then shows that [x]. *)
Lemma apply_press_shows_leftover_input :
  modalVisible leakState = false
  /\ name (handleApplyPress jobDesigner leakState) = lit "x"
  /\ ~ formIsBlank (handleApplyPress jobDesigner leakState).
Proof.
  split; [reflexivity|]. split; [reflexivity|].
  unfold formIsBlank. intros [H _]. vm_compute in H. discriminate H.
Qed.

(** C5, amended.  Pressing Apply selects the job, shows the modal and
    empties the feedback message; the four fields and the error messages
    stay as they are.  Closing the form empties the four fields, the error
    messages and the feedback message, so that Apply on job A, any typing,
    Close, and Apply on job B shows an empty form. *)
Theorem apply_press_after_close_is_blank (s : State) (jobA jobB : Job) :
  let s' := handleApplyPress jobA s in
  (selectedJob s' = Some jobA /\ modalVisible s' = true /\ feedbackMessage s' = []
   /\ name s' = name s /\ email s' = email s /\ contactNumber s' = contactNumber s
   /\ whyHire s' = whyHire s /\ errors s' = errors s)
  /\ (formIsBlank (handleCloseModal s) /\ modalVisible (handleCloseModal s) = false)
  /\ (forall (toLowerCase : jsstring -> jsstring) (typing : list Event),
        let s2 := run toLowerCase (PressApply jobA :: typing ++ [PressClose; PressApply jobB]) s in
        formIsBlank s2 /\ selectedJob s2 = Some jobB /\ modalVisible s2 = true).
Proof.
  cbv zeta. split; [|split].
  - destruct s. simpl. repeat split.
  - destruct s. unfold formIsBlank. simpl. repeat split.
  - intros toLowerCase typing. unfold run. simpl fold_left.
    rewrite fold_left_app. simpl.
    destruct (fold_left (step toLowerCase) typing (handleApplyPress jobA s)).
    unfold formIsBlank. simpl. repeat split.
Qed.

(** C6. Submitting checks the four fields independently.  [validateForm]
    returns true exactly when the four rules hold; when it returns false
    the stored message of a field is empty exactly when that field is
    valid, nothing but the error messages changes, the modal keeps its
    visibility and no timer is armed. *)
Theorem submit_checks_every_field (s : State) :
  let s' := handleSubmitApplication s in
  (fst (validateForm s) = true <->
     nameValid (name s) = true /\ emailValid (email s) = true
     /\ contactNumberValid (contactNumber s) = true /\ whyHireValid (whyHire s) = true)
  /\ (fst (validateForm s) = false ->
        (Errors.name (errors s') = [] <-> nameValid (name s) = true)
        /\ (Errors.email (errors s') = [] <-> emailValid (email s) = true)
        /\ (Errors.contactNumber (errors s') = [] <->
            contactNumberValid (contactNumber s) = true)
        /\ (Errors.whyHire (errors s') = [] <-> whyHireValid (whyHire s) = true)
        /\ modalVisible s' = modalVisible s
        /\ timers s' = timers s
        /\ s' = setErrors (errors s') s).
Proof.
  cbv zeta. split.
  - rewrite validateForm_fst, validateForm_flag, !andb_true_iff. tauto.
  - intros Hbad. rewrite (handleSubmitApplication_invalid _ Hbad), errors_setErrors.
    destruct (validateForm_messages s) as [Hn [He [Hc Hw]]]. cbv zeta in *.
    rewrite Hn, He, Hc, Hw.
    rewrite checkName_message, checkEmail_message,
      checkContactNumber_message, checkWhyHire_message.
    repeat split; try tauto; now destruct s.
Qed.

Lemma submit_checks_every_field_witness :
  fst (validateForm partialForm) = false
  /\ Errors.name (errors (handleSubmitApplication partialForm)) = []
  /\ Errors.email (errors (handleSubmitApplication partialForm))
     = lit "Please enter a valid email address."
  /\ (Errors.contactNumber (errors (handleSubmitApplication partialForm)) = [] <->
      contactNumberValid (contactNumber partialForm) = true)
  /\ modalVisible (handleSubmitApplication partialForm) = true.
Proof.
  assert (Hbad : fst (validateForm partialForm) = false) by (vm_compute; reflexivity).
  pose proof (proj2 (submit_checks_every_field partialForm) Hbad) as H.
  cbv zeta in H. destruct H as [_ [_ [Hc [_ [Hm _]]]]].
  split; [exact Hbad|]. split; [vm_compute; reflexivity|].
  split; [vm_compute; reflexivity|]. split; [exact Hc|].
  rewrite Hm. vm_compute. reflexivity.
Defined.

(** C7. When the four fields are valid, submitting stores the success
    message and empties the four fields and the error messages at once,
    with the modal as visible as before, and arms a timer for 2000 ms:
    as long as less than 2000 ms have passed (and no older timer is due)
    the modal keeps its visibility with the fields already empty; once
    2000 ms have passed the modal is hidden. *)
Theorem submit_valid_clears_then_closes (s : State) (Hvalid : fst (validateForm s) = true) :
  let s' := handleSubmitApplication s in
  feedbackMessage s' = lit "Application submitted successfully!"
  /\ (name s' = [] /\ email s' = [] /\ contactNumber s' = [] /\ whyHire s' = [])
  /\ errors s' = Errors.empty
  /\ modalVisible s' = modalVisible s
  /\ timers s' = timers s ++ [(clock s + 2000)%N]
  /\ (forall d, (d < 2000)%N ->
        existsb (fun due => (due <=? clock s + d)%N) (timers s) = false ->
        modalVisible (elapse d s') = modalVisible s
        /\ name (elapse d s') = [] /\ email (elapse d s') = []
        /\ contactNumber (elapse d s') = [] /\ whyHire (elapse d s') = [])
  /\ (forall d, (2000 <= d)%N -> modalVisible (elapse d s') = false).
Proof.
  cbv zeta. rewrite (handleSubmitApplication_valid _ Hvalid).
  generalize (snd (validateForm_locals s)). intros e0.
  destruct s as [a b c d0 e f g h i j k l m n q p].
  cbn [setTimeout setErrors setWhyHire setContactNumber setEmail setName
       setFeedbackMessage elapse feedbackMessage name email contactNumber whyHire
       errors modalVisible timers clock].
  split; [reflexivity|]. split; [now repeat split|]. split; [reflexivity|].
  split; [reflexivity|]. split; [reflexivity|]. split.
  - intros d Hd Hold. rewrite existsb_app, Hold. cbn [existsb orb].
    destruct (N.leb_spec (q + 2000) (q + d)); [lia | now repeat split].
  - intros d Hd. rewrite existsb_app. cbn [existsb].
    destruct (N.leb_spec (q + 2000) (q + d)); [|lia].
    now rewrite !orb_true_r.
Qed.

Lemma submit_valid_clears_then_closes_witness :
  fst (validateForm filledForm) = true
  /\ feedbackMessage (handleSubmitApplication filledForm)
     = lit "Application submitted successfully!"
  /\ modalVisible (handleSubmitApplication filledForm) = true
  /\ modalVisible (elapse 1999 (handleSubmitApplication filledForm)) = true
  /\ modalVisible (elapse 2000 (handleSubmitApplication filledForm)) = false.
Proof.
  assert (Hok : fst (validateForm filledForm) = true) by (vm_compute; reflexivity).
  pose proof (submit_valid_clears_then_closes filledForm Hok) as H.
  cbv zeta in H. destruct H as [Hf [_ [_ [Hm [_ [Hbefore Hafter]]]]]].
  split; [exact Hok|]. split; [exact Hf|].
  split; [rewrite Hm; reflexivity|]. split.
  - rewrite (proj1 (Hbefore 1999%N eq_refl eq_refl)). reflexivity.
  - apply Hafter. discriminate.
Defined.

(** C8. The contact-number check accepts a value exactly when it is [09]
    followed by nine digits, and [validateForm] stores no message for the
    contact number exactly then; [09171234567] is accepted, [9171234567],
    [091712345], [08171234567] and the empty string are rejected, the
    last as a missing required field. *)
Theorem contactNumber_accepts_09_and_nine_digits :
  (forall v,
     fst (checkContactNumber v (true, Errors.empty)) = true <-> ZeroNineThenNineDigits v)
  /\ (forall s,
        Errors.contactNumber (errors (snd (validateForm s))) = [] <->
        ZeroNineThenNineDigits (contactNumber s))
  /\ fst (checkContactNumber (lit "09171234567") (true, Errors.empty)) = true
  /\ fst (checkContactNumber (lit "9171234567") (true, Errors.empty)) = false
  /\ fst (checkContactNumber (lit "091712345") (true, Errors.empty)) = false
  /\ fst (checkContactNumber (lit "08171234567") (true, Errors.empty)) = false
  /\ checkContactNumber (lit "") (true, Errors.empty)
     = (false, Errors.setContactNumber (lit "Contact number is required.") Errors.empty).
Proof.
  split; [|split; [|repeat split]].
  - intros v. rewrite checkContactNumber_eq, <- contactNumberPattern_spec,
      <- contactNumberValid_test.
    destruct (contactNumberValid v); simpl; split; congruence.
  - intros s. rewrite validateForm_snd, errors_setErrors.
    destruct (validateForm_messages s) as [_ [_ [Hc _]]]. cbv zeta in Hc.
    now rewrite Hc, checkContactNumber_message, contactNumberValid_test,
      contactNumberPattern_spec.
Qed.

(** C9. The email check accepts a value exactly when it has the shape
    [local@domain.tld]: a non-empty local part over [[a-zA-Z0-9._%+-]],
    an at sign, a non-empty domain over [[a-zA-Z0-9.-]], a dot and at
    least two letters; [validateForm] stores no message for the email
    exactly then.  [a@b.co] is accepted, [a@b], [a.com] and the empty
    string are rejected, the last as a missing required field. *)
Theorem email_accepts_local_at_domain_tld :
  (forall v,
     fst (checkEmail v (true, Errors.empty)) = true <-> LocalAtDomainTld v)
  /\ (forall s,
        Errors.email (errors (snd (validateForm s))) = [] <->
        LocalAtDomainTld (email s))
  /\ fst (checkEmail (lit "a@b.co") (true, Errors.empty)) = true
  /\ fst (checkEmail (lit "a@b") (true, Errors.empty)) = false
  /\ fst (checkEmail (lit "a.com") (true, Errors.empty)) = false
  /\ checkEmail (lit "") (true, Errors.empty)
     = (false, Errors.setEmail (lit "Email is required.") Errors.empty).
Proof.
  split; [|split; [|repeat split]].
  - intros v. rewrite checkEmail_eq, <- emailPattern_spec, <- emailValid_test.
    destruct (emailValid v); simpl; split; congruence.
  - intros s. rewrite validateForm_snd, errors_setErrors.
    destruct (validateForm_messages s) as [_ [He _]]. cbv zeta in He.
    now rewrite He, checkEmail_message, emailValid_test, emailPattern_spec.
Qed.

(* ------------------------------------------------------------------ *)
(** ** Identifiers handed out by the fetch *)

Lemma jobsWithIds_length (uuid : nat -> jsstring) (k : nat) (raw : list Job) :
  length (jobsWithIds uuid k raw) = length raw.
Proof.
  revert k. induction raw as [|job raw IH]; intros k; simpl; [reflexivity|].
  now rewrite IH.
Qed.

Lemma jobsWithIds_nth (uuid : nat -> jsstring) (k : nat) (raw : list Job) (i : nat) :
  nth_error (jobsWithIds uuid k raw) i
  = option_map (withId (uuid (k + i))) (nth_error raw i).
Proof.
  revert k i. induction raw as [|job raw IH]; intros k i; simpl.
  - now destruct i.
  - destruct i as [|i]; simpl.
    + now rewrite Nat.add_0_r.
    + rewrite IH. now rewrite Nat.add_succ_r.
Qed.

Lemma jobsWithIds_ids (uuid : nat -> jsstring) (k : nat) (raw : list Job) :
  map id (jobsWithIds uuid k raw) = map uuid (seq k (length raw)).
Proof.
  revert k. induction raw as [|job raw IH]; intros k; simpl; [reflexivity|].
  now rewrite IH.
Qed.

(** Leaving postings out of a list keeps its identifiers apart. *)
Lemma filter_keeps_ids_apart (keep : Job -> bool) (l : list Job) :
  NoDup (map id l) -> NoDup (map id (filter keep l)).
Proof.
  intros H. induction l as [|x l IH]; simpl in *; [constructor|].
  apply NoDup_cons_iff in H as [Hx Hl]. specialize (IH Hl).
  destruct (keep x); [|exact IH]. simpl. apply NoDup_cons; [|exact IH].
  contradict Hx. apply in_map_iff in Hx as [y [Ey Hy]].
  apply filter_In in Hy as [Hy _]. rewrite <- Ey. now apply in_map.
Qed.

Lemma NoDup_map_injective {A B : Type} (f : A -> B) (l : list A) :
  (forall x y, f x = f y -> x = y) -> NoDup l -> NoDup (map f l).
Proof.
  intros Hinj. induction l as [|x l IH]; simpl; intros H; [constructor|].
  inversion H as [|? ? Hx Hl]; subst. constructor; [|now apply IH].
  intros Hin. apply in_map_iff in Hin as [y [Ey Hy]].
  apply Hinj in Ey. now subst.
Qed.

Lemma sampleUuid_injective (i j : nat) : sampleUuid i = sampleUuid j -> i = j.
Proof.
  unfold sampleUuid. intros H. apply app_inv_head in H.
  assert (E : forall a b : N, [a] = [b] -> a = b) by (intros a b E; now injection E).
  apply E, N.add_cancel_l in H. now apply Nat2N.inj.
Qed.

(** X1. The fetched list has one record per posting of the payload, in
    the same order; the record at position [i] is the posting at position
    [i] with the value of call [i] of [uuid.v4()] as identifier, and
    whatever identifier the payload carried is dropped. *)
Theorem jobsWithIds_pointwise
        (uuid : nat -> jsstring) (raw : list Job) (given : Job -> jsstring) :
  length (jobsWithIds uuid 0 raw) = length raw
  /\ (forall i, nth_error (jobsWithIds uuid 0 raw) i
                = option_map (withId (uuid i)) (nth_error raw i))
  /\ jobsWithIds uuid 0 (map (fun job => withId (given job) job) raw)
     = jobsWithIds uuid 0 raw.
Proof.
  split; [apply jobsWithIds_length|]. split; [intros i; apply jobsWithIds_nth|].
  generalize 0. induction raw as [|job raw IH]; intros k; simpl; [reflexivity|].
  now rewrite IH.
Qed.

(** X2. When [uuid.v4()] never returns the same value twice, a fetch that
    resolves with an array leaves a list whose keys are pairwise
    different, and so is every filtered list computed from it. *)
Theorem fetched_keys_unique
        (toLowerCase : jsstring -> jsstring) (uuid : nat -> jsstring)
        (Hfresh : forall i j, uuid i = uuid j -> i = j)
        (raw : list Job) (s : State) (text : jsstring) :
  let s' := fetchJobs_settle (Resolved (JobsArray raw)) uuid s in
  NoDup (map keyExtractor (jobs s'))
  /\ NoDup (map keyExtractor (filteredJobs s'))
  /\ NoDup (map keyExtractor (filteredJobs (handleSearchChange toLowerCase text s'))).
Proof.
  assert (H : NoDup (map id (jobsWithIds uuid 0 raw))).
  { rewrite jobsWithIds_ids. apply NoDup_map_injective; [exact Hfresh | apply seq_NoDup]. }
  destruct s as [a b c d e f g h i j k l m n q p]. cbv zeta. simpl.
  split; [exact H|]. split; [exact H|]. now apply filter_keeps_ids_apart.
Qed.

Lemma fetched_keys_unique_witness :
  (forall i j, sampleUuid i = sampleUuid j -> i = j)
  /\ NoDup (map keyExtractor
              (jobs (fetchJobs_settle samplePayload sampleUuid initialState))).
Proof.
  split; [exact sampleUuid_injective|].
  exact (proj1 (fetched_keys_unique asciiLower sampleUuid sampleUuid_injective
                  [rawEngineer; rawDesigner] initialState (lit "a"))).
Defined.

(** X3. Saved entries are matched by identifier and every fetch hands out
    new identifiers: when none of the values of [uuid.v4()] is the
    identifier of a saved entry, no row of the fetched list is shown as
    saved, whatever was saved before. *)
Theorem fetched_rows_not_saved
        (uuid : nat -> jsstring) (raw : list Job) (s : State)
        (Hnew : forall k, ~ In (uuid k) (map id (savedJobs s))) :
  let s' := fetchJobs_settle (Resolved (JobsArray raw)) uuid s in
  savedJobs s' = savedJobs s
  /\ forall item, In item (jobs s') -> saveButtonLabel s' item = lit "Save Job".
Proof.
  cbv zeta.
  assert (Hs : savedJobs (fetchJobs_settle (Resolved (JobsArray raw)) uuid s) = savedJobs s)
    by now destruct s.
  assert (Hj : jobs (fetchJobs_settle (Resolved (JobsArray raw)) uuid s)
               = jobsWithIds uuid 0 raw) by now destruct s.
  split; [exact Hs|]. intros item Hin. unfold saveButtonLabel. rewrite Hs, Hj in *.
  assert (E : isSaved (savedJobs s) item = false).
  { apply isSaved_not_In. apply (in_map id) in Hin. rewrite jobsWithIds_ids in Hin.
    apply in_map_iff in Hin as [k [<- _]]. apply Hnew. }
  now rewrite E.
Qed.

Lemma fetched_rows_not_saved_witness :
  (forall k, ~ In (sampleUuid (2 + k)) (map id (savedJobs (handleSaveJob jobEngineer filledForm))))
  /\ saveButtonLabel filledForm jobEngineer = lit "Save Job"
  /\ saveButtonLabel (handleSaveJob jobEngineer filledForm) jobEngineer = lit "Saved"
  /\ forall item,
       In item (jobs (fetchJobs_settle samplePayload (fun k => sampleUuid (2 + k))
                        (handleSaveJob jobEngineer filledForm))) ->
       saveButtonLabel (fetchJobs_settle samplePayload (fun k => sampleUuid (2 + k))
                          (handleSaveJob jobEngineer filledForm)) item
       = lit "Save Job".
Proof.
  assert (H : forall k, ~ In (sampleUuid (2 + k))
                          (map id (savedJobs (handleSaveJob jobEngineer filledForm)))).
  { intros k [E | []]. change (id jobEngineer) with (sampleUuid 0) in E.
    apply sampleUuid_injective in E. discriminate E. }
  split; [exact H|]. split; [reflexivity|]. split; [reflexivity|].
  exact (proj2 (fetched_rows_not_saved (fun k => sampleUuid (2 + k))
                  [rawEngineer; rawDesigner] (handleSaveJob jobEngineer filledForm) H)).
Defined.

(* ------------------------------------------------------------------ *)
(** ** Searching *)

Lemma Substring_trans (a b c : jsstring) :
  Substring a b -> Substring b c -> Substring a c.
Proof.
  intros [p1 [q1 ->]] [p2 [q2 ->]]. exists (p2 ++ p1), (q1 ++ q2).
  now rewrite <- !app_assoc.
Qed.

Lemma filter_filter_implied {A : Type} (p q : A -> bool) (l : list A) :
  (forall x, q x = true -> p x = true) -> filter q (filter p l) = filter q l.
Proof.
  intros H. induction l as [|x l IH]; simpl; [reflexivity|].
  destruct (p x) eqn:Ep; simpl.
  - now rewrite IH.
  - destruct (q x) eqn:Eq; [|exact IH]. apply H in Eq. congruence.
Qed.

(** X4. Each keystroke filters the held list, not the list on screen: the
    state after two keystrokes is the state after the second alone, so
    deleting characters brings back the postings an earlier term had
    hidden. *)
Theorem last_keystroke_wins
        (toLowerCase : jsstring -> jsstring) (t1 t2 : jsstring) (s : State) :
  handleSearchChange toLowerCase t2 (handleSearchChange toLowerCase t1 s)
  = handleSearchChange toLowerCase t2 s.
Proof. now destruct s. Qed.

(** X5. A term whose lower-cased form contains the lower-cased form of
    another selects a part of what the other selects: the filtered list
    for the longer term is the filtered list for the shorter one, filtered
    again. *)
Theorem longer_term_narrows
        (toLowerCase : jsstring -> jsstring) (t1 t2 : jsstring) (s : State)
        (Hsub : Substring (toLowerCase t1) (toLowerCase t2)) :
  filteredJobs (handleSearchChange toLowerCase t2 s)
  = filter (matchesTerm toLowerCase t2) (filteredJobs (handleSearchChange toLowerCase t1 s))
  /\ forall j, In j (filteredJobs (handleSearchChange toLowerCase t2 s)) ->
               In j (filteredJobs (handleSearchChange toLowerCase t1 s)).
Proof.
  assert (Himp : forall j, matchesTerm toLowerCase t2 j = true ->
                           matchesTerm toLowerCase t1 j = true).
  { intros j. rewrite !matchesTerm_spec. unfold SpecMatch.
    intros [H | H]; [left | right]; eapply Substring_trans; eassumption. }
  assert (E : forall t, filteredJobs (handleSearchChange toLowerCase t s)
                        = filter (matchesTerm toLowerCase t) (jobs s)) by now destruct s.
  rewrite !E. split.
  - symmetry. now apply filter_filter_implied.
  - intros j Hj. apply filter_In in Hj as [Hin Hm]. apply filter_In. split; auto.
Qed.

Lemma longer_term_narrows_witness :
  Substring (asciiLower (lit "En")) (asciiLower (lit "eng"))
  /\ forall j, In j (filteredJobs (handleSearchChange asciiLower (lit "eng") filledForm)) ->
               In j (filteredJobs (handleSearchChange asciiLower (lit "En") filledForm)).
Proof.
  assert (H : Substring (asciiLower (lit "En")) (asciiLower (lit "eng"))).
  { exists [], (lit "g"). reflexivity. }
  split; [exact H|].
  exact (proj2 (longer_term_narrows asciiLower (lit "En") (lit "eng") filledForm H)).
Defined.

(* ------------------------------------------------------------------ *)
(** ** Traces of the screen *)

Lemma run_invariant (toLowerCase : jsstring -> jsstring) (P : State -> Prop) :
  (forall s e, P s -> P (step toLowerCase s e)) ->
  forall es s, P s -> P (run toLowerCase es s).
Proof.
  intros Hstep es. unfold run. induction es as [|e es IH]; intros s Hs; simpl.
  - exact Hs.
  - apply IH. now apply Hstep.
Qed.

Lemma handleSubmitApplication_cases (s : State) :
  handleSubmitApplication s = setErrors (snd (validateForm_locals s)) s
  \/ handleSubmitApplication s =
     setTimeout 2000
       (setErrors Errors.empty
         (setWhyHire (lit "")
           (setContactNumber (lit "")
             (setEmail (lit "")
               (setName (lit "")
                 (setFeedbackMessage (lit "Application submitted successfully!")
                   (setErrors (snd (validateForm_locals s)) s))))))).
Proof.
  destruct (fst (validateForm s)) eqn:E.
  - right. now apply handleSubmitApplication_valid.
  - left. now apply handleSubmitApplication_invalid.
Qed.

Lemma savedJobs_step (toLowerCase : jsstring -> jsstring) (s : State) (e : Event) :
  savedJobs (step toLowerCase s e)
  = match e with
    | PressSave job => toggleSaved job (savedJobs s)
    | _ => savedJobs s
    end.
Proof.
  destruct e as [|o uuid| | | | | | | | | |]; simpl; try (now destruct s).
  - destruct o as [| |[| | |raw]]; now destruct s.
  - destruct (handleSubmitApplication_cases s) as [-> | ->]; now destruct s.
Qed.

Lemma run_saved_NoDup (toLowerCase : jsstring -> jsstring) (es : list Event) :
  NoDup (map id (savedJobs (run toLowerCase es initialState))).
Proof.
  apply run_invariant with (P := fun s => NoDup (map id (savedJobs s))).
  - intros s e H. rewrite savedJobs_step. destruct e; try exact H.
    now apply toggleSaved_NoDup.
  - constructor.
Qed.

(* ------------------------------------------------------------------ *)
(** ** Membership after a toggle *)

Lemma eqb_sym (s t : jsstring) : eqb s t = eqb t s.
Proof.
  destruct (eqb t s) eqn:E.
  - apply eqb_eq in E. subst. apply eqb_refl.
  - apply eqb_neq. apply eqb_neq in E. congruence.
Qed.

Lemma isSaved_same_id (saved : list Job) (a b : Job) :
  id a = id b -> isSaved saved a = isSaved saved b.
Proof. unfold isSaved. now intros ->. Qed.

Lemma isSaved_app (l1 l2 : list Job) (item : Job) :
  isSaved (l1 ++ l2) item = isSaved l1 item || isSaved l2 item.
Proof. unfold isSaved. apply existsb_app. Qed.

Lemma isSaved_filter_other (saved : list Job) (job item : Job) :
  isSaved (filter (fun y => negb (eqb (id y) (id job))) saved) item
  = negb (eqb (id item) (id job)) && isSaved saved item.
Proof.
  induction saved as [|y saved IH]; simpl.
  - now rewrite andb_false_r.
  - destruct (eqb (id y) (id job)) eqn:Ey; simpl.
    + rewrite IH. apply eqb_eq in Ey.
      destruct (eqb (id y) (id item)) eqn:Ei; simpl; [|reflexivity].
      apply eqb_eq in Ei. rewrite <- Ei, Ey, eqb_refl. reflexivity.
    + rewrite IH. destruct (eqb (id y) (id item)) eqn:Ei; simpl; [|reflexivity].
      apply eqb_eq in Ei. rewrite <- Ei, Ey. reflexivity.
Qed.

(** In a saved set a toggle flips the membership of the toggled
    identifier and of no other. *)
Lemma isSaved_toggleSaved (saved : list Job) (job item : Job) :
  NoDup (map id saved) ->
  isSaved (toggleSaved job saved) item
  = if eqb (id item) (id job) then negb (isSaved saved job) else isSaved saved item.
Proof.
  intros Hnd. destruct (isSaved saved job) eqn:E.
  - destruct (toggleSaved_present_unique _ _ Hnd E) as [-> _].
    rewrite isSaved_filter_other. now destruct (eqb (id item) (id job)).
  - rewrite (toggleSaved_absent _ _ E), isSaved_app. unfold isSaved at 2. simpl.
    rewrite orb_false_r, (eqb_sym (id job)).
    destruct (eqb (id item) (id job)) eqn:Ei.
    + apply eqb_eq in Ei. rewrite (isSaved_same_id saved _ _ Ei), E. reflexivity.
    + apply orb_false_r.
Qed.

(** X6. In every state the screen reaches, pressing the save button of a
    row turns its label from [Save Job] into [Saved] or back, does the
    same to every row with the same identifier, and leaves the label of
    every row with another identifier as it is. *)
Theorem save_button_label_flips
        (toLowerCase : jsstring -> jsstring) (es : list Event) (job item : Job) :
  let s := run toLowerCase es initialState in
  saveButtonLabel (handleSaveJob job s) item
  = if eqb (id item) (id job)
    then (if isSaved (savedJobs s) job then lit "Save Job" else lit "Saved")
    else saveButtonLabel s item.
Proof.
  cbv zeta. unfold saveButtonLabel.
  rewrite savedJobs_handleSaveJob, isSaved_toggleSaved by apply run_saved_NoDup.
  destruct (eqb (id item) (id job)); [|reflexivity].
  now destruct (isSaved _ job).
Qed.



(** X8. In a saved set the order of two toggles does not matter for what
    is saved: toggling [a] then [b] and toggling [b] then [a] give the
    same membership for every row. *)
Theorem toggles_commute_on_membership
        (saved : list Job) (a b : Job) (Hset : NoDup (map id saved)) :
  forall item,
    isSaved (toggleSaved a (toggleSaved b saved)) item
    = isSaved (toggleSaved b (toggleSaved a saved)) item.
Proof.
  intros item.
  rewrite !isSaved_toggleSaved by (try apply toggleSaved_NoDup; exact Hset).
  rewrite (eqb_sym (id b) (id a)).
  destruct (eqb (id item) (id a)) eqn:Ea, (eqb (id item) (id b)) eqn:Eb,
    (eqb (id a) (id b)) eqn:Eab; try reflexivity.
  - apply eqb_eq in Eab. now rewrite (isSaved_same_id saved _ _ Eab).
  - apply eqb_eq in Ea, Eb. apply eqb_neq in Eab. congruence.
  - apply eqb_eq in Ea, Eab. apply eqb_neq in Eb. congruence.
  - apply eqb_eq in Eb, Eab. apply eqb_neq in Ea. congruence.
Qed.

Lemma toggles_commute_on_membership_witness :
  NoDup (map id [jobEngineer])
  /\ forall item,
       isSaved (toggleSaved jobEngineer (toggleSaved jobDesigner [jobEngineer])) item
       = isSaved (toggleSaved jobDesigner (toggleSaved jobEngineer [jobEngineer])) item.
Proof.
  assert (H : NoDup (map id [jobEngineer])).
  { repeat constructor. simpl. tauto. }
  split; [exact H|].
  exact (toggles_commute_on_membership [jobEngineer] jobEngineer jobDesigner H).
Defined.

(** X9. Whatever the user does and whatever the fetch returns, no two
    saved entries of a state the screen reaches share an identifier, and
    only a press on a save button changes what is saved. *)
Theorem saved_set_on_every_trace
        (toLowerCase : jsstring -> jsstring) (es : list Event) (e : Event) :
  let s := run toLowerCase es initialState in
  NoDup (map id (savedJobs s))
  /\ savedJobs (step toLowerCase s e)
     = match e with
       | PressSave job => toggleSaved job (savedJobs s)
       | _ => savedJobs s
       end.
Proof.
  cbv zeta. split; [apply run_saved_NoDup | apply savedJobs_step].
Qed.

(* ------------------------------------------------------------------ *)
(** ** Invariants of the screen *)

(** X10. In every state the screen reaches the list on screen is the held
    list with some postings left out: the same order, and nothing that is
    not held.  This holds also where the list on screen is not the one the
    search term asks for. *)
Theorem filtered_is_part_of_held
        (toLowerCase : jsstring -> jsstring) (es : list Event) :
  let s := run toLowerCase es initialState in
  (exists keep, filteredJobs s = filter keep (jobs s))
  /\ forall j, In j (filteredJobs s) -> In j (jobs s).
Proof.
  cbv zeta.
  assert (H : exists keep, filteredJobs (run toLowerCase es initialState)
                           = filter keep (jobs (run toLowerCase es initialState))).
  { apply run_invariant with (P := fun s => exists keep, filteredJobs s = filter keep (jobs s)).
    - intros s e [keep Hk].
      destruct e as [|o uuid|text| | | | | | | | |]; simpl;
        try (exists keep; destruct s; exact Hk).
      + destruct o as [| |[| | |raw]]; try (exists keep; destruct s; exact Hk).
        exists (fun _ => true). destruct s. simpl. symmetry. apply filter_id.
        now apply forallb_forall.
      + exists (matchesTerm toLowerCase text). now destruct s.
      + exists keep.
        destruct (handleSubmitApplication_cases s) as [-> | ->]; destruct s; exact Hk.
    - exists (fun _ => true). reflexivity. }
  split; [exact H|]. destruct H as [keep ->]. intros j Hj.
  now apply filter_In in Hj.
Qed.

(** X11. In every state the screen reaches, a visible modal has a
    selected job to show: the modal is hidden or [selectedJob] is set. *)
Theorem visible_modal_has_job
        (toLowerCase : jsstring -> jsstring) (es : list Event) :
  let s := run toLowerCase es initialState in
  modalVisible s = false \/ exists job, selectedJob s = Some job.
Proof.
  cbv zeta.
  apply run_invariant
    with (P := fun s => modalVisible s = false \/ exists job, selectedJob s = Some job).
  - intros s e H.
    destruct e as [|o uuid| | |job| | | | | | |d]; simpl;
      try (destruct s; exact H).
    + destruct o as [| |[| | |raw]]; destruct s; exact H.
    + right. exists job. now destruct s.
    + destruct (handleSubmitApplication_cases s) as [-> | ->]; destruct s; exact H.
    + left. now destruct s.
    + destruct s as [a b c d0 e f g h i j k l m n q p]. simpl in *.
      destruct H as [-> | H]; [|now right].
      left. now destruct (existsb _ p).
  - now left.
Qed.

(** X12. The match between the list on screen and the search term is
    lost in one way only.  A keystroke into the search box establishes it
    from any state, and every event keeps it, except the arrival of the
    fetch while the search box is not empty. *)
Theorem filter_consistency_kept
        (toLowerCase : jsstring -> jsstring) (Hempty : toLowerCase [] = [])
        (s : State) (e : Event)
        (Hinv : filterConsistent toLowerCase s)
        (Hsafe : isFetchSettled e = false \/ searchTerm s = []) :
  filterConsistent toLowerCase (step toLowerCase s e)
  /\ forall s0 text, filterConsistent toLowerCase (step toLowerCase s0 (SearchChange text)).
Proof.
  split.
  - destruct e as [|o uuid|text| | | | | | | | |]; simpl;
      try (unfold filterConsistent in *; destruct s; exact Hinv).
    + destruct Hsafe as [Hs | Hs]; [discriminate Hs|].
      now apply fetchJobs_settle_consistent_empty.
    + apply handleSearchChange_consistent.
    + unfold filterConsistent in *.
      destruct (handleSubmitApplication_cases s) as [-> | ->]; destruct s; exact Hinv.
  - intros s0 text. apply handleSearchChange_consistent.
Qed.

Lemma filter_consistency_kept_witness :
  asciiLower [] = []
  /\ filterConsistent asciiLower (fetchJobs_start initialState)
  /\ searchTerm (fetchJobs_start initialState) = []
  /\ filterConsistent asciiLower
       (step asciiLower (fetchJobs_start initialState)
             (FetchSettled samplePayload sampleUuid)).
Proof.
  assert (Hinv : filterConsistent asciiLower (fetchJobs_start initialState))
    by reflexivity.
  split; [reflexivity|]. split; [exact Hinv|]. split; [reflexivity|].
  exact (proj1 (filter_consistency_kept asciiLower eq_refl (fetchJobs_start initialState)
                  (FetchSettled samplePayload sampleUuid) Hinv (or_intror eq_refl))).
Defined.




(** X14. Typing into the form fields checks nothing: after any run of
    keystrokes the error messages, the feedback message and the
    visibility of the modal are what they were. *)
Theorem typing_keeps_messages
        (toLowerCase : jsstring -> jsstring) (es : list Event) (s : State)
        (Hkeys : forallb isTyping es = true) :
  errors (run toLowerCase es s) = errors s
  /\ feedbackMessage (run toLowerCase es s) = feedbackMessage s
  /\ modalVisible (run toLowerCase es s) = modalVisible s
  /\ selectedJob (run toLowerCase es s) = selectedJob s.
Proof.
  unfold run. revert s. induction es as [|e es IH]; intros s; simpl.
  - now repeat split.
  - simpl in Hkeys. apply andb_true_iff in Hkeys as [He Hes].
    destruct (IH Hes (step toLowerCase s e)) as [H1 [H2 [H3 H4]]].
    rewrite H1, H2, H3, H4.
    destruct e; try discriminate He; now destruct s.
Qed.

Lemma typing_keeps_messages_witness :
  forallb isTyping [ChangeEmail (lit "a@b.co"); ChangeContactNumber (lit "09171234567")] = true
  /\ errors (run asciiLower
               [ChangeEmail (lit "a@b.co"); ChangeContactNumber (lit "09171234567")]
               (handleSubmitApplication partialForm))
     = errors (handleSubmitApplication partialForm).
Proof.
  split; [reflexivity|].
  exact (proj1 (typing_keeps_messages asciiLower
                  [ChangeEmail (lit "a@b.co"); ChangeContactNumber (lit "09171234567")]
                  (handleSubmitApplication partialForm) eq_refl)).
Defined.

(* ------------------------------------------------------------------ *)
(** ** More on the application form *)

Lemma truthy_trim (v : jsstring) : truthy (trim v) = negb (forallb isWhiteSpace v).
Proof.
  destruct (forallb isWhiteSpace v) eqn:E; simpl.
  - now apply trim_falsy_iff.
  - destruct (truthy (trim v)) eqn:T; [reflexivity|].
    apply trim_falsy_iff in T. congruence.
Qed.

(** X15. After a submit the message of a field is decided by that field:
    a field that is empty or white space only gets its [required]
    message; an email or contact number that is not blank gets no message
    when it matches its pattern and the [valid] message otherwise. *)
Theorem message_chosen_per_field (s : State) :
  let e := errors (snd (validateForm s)) in
  Errors.name e
  = (if forallb isWhiteSpace (name s) then lit "Name is required." else lit "")
  /\ Errors.email e
     = (if forallb isWhiteSpace (email s) then lit "Email is required."
        else if test emailPattern (email s) then lit ""
        else lit "Please enter a valid email address.")
  /\ Errors.contactNumber e
     = (if forallb isWhiteSpace (contactNumber s) then lit "Contact number is required."
        else if test contactNumberPattern (contactNumber s) then lit ""
        else lit "Please enter a valid contact number (11 digits starting with 09).")
  /\ Errors.whyHire e
     = (if forallb isWhiteSpace (whyHire s) then lit "This field is required." else lit "").
Proof.
  cbv zeta. rewrite validateForm_snd, errors_setErrors.
  destruct (validateForm_messages s) as [Hn [He [Hc Hw]]]. cbv zeta in *.
  rewrite Hn, He, Hc, Hw. unfold checkName, checkEmail, checkContactNumber, checkWhyHire.
  rewrite !truthy_trim, !negb_involutive.
  destruct (forallb isWhiteSpace (name s)), (forallb isWhiteSpace (email s)),
    (forallb isWhiteSpace (contactNumber s)), (forallb isWhiteSpace (whyHire s)),
    (test emailPattern (email s)), (test contactNumberPattern (contactNumber s));
    repeat split.
Qed.

Ltac class_arith :=
  unfold isWhiteSpace, isLocalChar, isDomainChar, isAlpha, isLower, isUpper, isDigit in *;
  rewrite ?orb_true_iff, ?andb_true_iff, ?N.leb_le, ?N.eqb_eq in *; lia.

Lemma isLocalChar_not_white (c : N) : isLocalChar c = true -> isWhiteSpace c = false.
Proof.
  intros H. destruct (isWhiteSpace c) eqn:E; [exfalso | reflexivity]. class_arith.
Qed.

Lemma isLocalChar_ascii (c : N) : isLocalChar c = true -> (c < 128)%N /\ c <> 64%N.
Proof. intros H. class_arith. Qed.

Lemma isDomainChar_local (c : N) : isDomainChar c = true -> isLocalChar c = true.
Proof.
  intros H. destruct (isLocalChar c) eqn:E; [reflexivity | exfalso].
  apply not_true_iff_false in E. apply E. clear E. class_arith.
Qed.

Lemma isAlpha_local (c : N) : isAlpha c = true -> isLocalChar c = true.
Proof.
  intros H. destruct (isLocalChar c) eqn:E; [reflexivity | exfalso].
  apply not_true_iff_false in E. apply E. clear E. class_arith.
Qed.

Lemma isDigit_local (c : N) : isDigit c = true -> isLocalChar c = true.
Proof.
  intros H. destruct (isLocalChar c) eqn:E; [reflexivity | exfalso].
  apply not_true_iff_false in E. apply E. clear E. class_arith.
Qed.

Lemma forallb_local (p : N -> bool) (l : jsstring) :
  (forall c, p c = true -> isLocalChar c = true) ->
  forallb p l = true -> Forall (fun c => isLocalChar c = true \/ c = 64%N) l.
Proof.
  intros Hp H. apply Forall_forall. intros c Hc. left. apply Hp.
  rewrite forallb_forall in H. now apply H.
Qed.

(** The code units of a value either pattern accepts. *)
Lemma LocalAtDomainTld_chars (v : jsstring) :
  LocalAtDomainTld v -> Forall (fun c => isLocalChar c = true \/ c = 64%N) v.
Proof.
  intros [loc [dom [tld [-> [_ [Hl [_ [Hd [_ Ht]]]]]]]]].
  repeat (apply Forall_app; split).
  - apply (forallb_local isLocalChar); [auto | assumption].
  - constructor; [now right | constructor].
  - now apply (forallb_local isDomainChar _ isDomainChar_local).
  - constructor; [now left | constructor].
  - now apply (forallb_local isAlpha _ isAlpha_local).
Qed.

Lemma ZeroNineThenNineDigits_chars (v : jsstring) :
  ZeroNineThenNineDigits v -> Forall (fun c => isLocalChar c = true \/ c = 64%N) v.
Proof.
  intros [ds [-> [_ Hd]]]. apply Forall_app. split.
  - repeat constructor.
  - now apply (forallb_local isDigit _ isDigit_local).
Qed.

Lemma white_not_accepted (v : jsstring) (c : N) :
  In c v -> isWhiteSpace c = true ->
  ~ Forall (fun c => isLocalChar c = true \/ c = 64%N) v.
Proof.
  intros Hin Hw H. rewrite Forall_forall in H. destruct (H c Hin) as [Hc | ->].
  - apply isLocalChar_not_white in Hc. congruence.
  - discriminate Hw.
Qed.

(** X16. The patterns are tested on the value as typed, not on the
    trimmed value: an email or a contact number with a white-space
    character anywhere, also in front or at the end, is rejected. *)
Theorem white_space_is_rejected (v : jsstring) (c : N)
        (Hin : In c v) (Hwhite : isWhiteSpace c = true) :
  fst (checkEmail v (true, Errors.empty)) = false
  /\ fst (checkContactNumber v (true, Errors.empty)) = false
  /\ forall s, email s = v \/ contactNumber s = v -> fst (validateForm s) = false.
Proof.
  assert (He : emailValid v = false).
  { rewrite emailValid_test. destruct (test emailPattern v) eqn:E; [exfalso | reflexivity].
    apply emailPattern_spec, LocalAtDomainTld_chars in E.
    exact (white_not_accepted v c Hin Hwhite E). }
  assert (Hc : contactNumberValid v = false).
  { rewrite contactNumberValid_test.
    destruct (test contactNumberPattern v) eqn:E; [exfalso | reflexivity].
    apply contactNumberPattern_spec, ZeroNineThenNineDigits_chars in E.
    exact (white_not_accepted v c Hin Hwhite E). }
  split; [now rewrite checkEmail_eq, He|]. split; [now rewrite checkContactNumber_eq, Hc|].
  intros s [E | E]; rewrite validateForm_fst, validateForm_flag, E.
  - rewrite He. now rewrite andb_false_r.
  - rewrite Hc. now rewrite andb_false_r.
Qed.

Lemma white_space_is_rejected_witness :
  In 32%N (lit " a@b.co") /\ isWhiteSpace 32 = true
  /\ fst (checkEmail (lit " a@b.co") (true, Errors.empty)) = false
  /\ fst (checkEmail (lit "a@b.co") (true, Errors.empty)) = true.
Proof.
  assert (Hin : In 32%N (lit " a@b.co")) by now left.
  split; [exact Hin|]. split; [reflexivity|]. split; [|reflexivity].
  exact (proj1 (white_space_is_rejected (lit " a@b.co") 32%N Hin eq_refl)).
Defined.

Lemma count_occ_forallb (p : N -> bool) (l : jsstring) (x : N) :
  forallb p l = true -> p x = false -> count_occ N.eq_dec l x = 0.
Proof.
  intros Hl Hx. apply count_occ_not_In. intros Hin.
  rewrite forallb_forall in Hl. specialize (Hl x Hin). congruence.
Qed.

(** X17. An email the form accepts has at least six code units, exactly
    one at sign, and only ASCII code units. *)
Theorem accepted_email_facts (v : jsstring)
        (Hok : fst (checkEmail v (true, Errors.empty)) = true) :
  6 <= length v
  /\ count_occ N.eq_dec v 64%N = 1
  /\ Forall (fun c => (c < 128)%N) v.
Proof.
  assert (Hv : LocalAtDomainTld v).
  { apply emailPattern_spec. rewrite <- emailValid_test.
    rewrite checkEmail_eq in Hok. now destruct (emailValid v). }
  split; [|split].
  - destruct Hv as [loc [dom [tld [-> [Hl [_ [Hd [_ [Ht _]]]]]]]]].
    rewrite !length_app. simpl.
    destruct loc; [congruence|]. destruct dom; [congruence|]. simpl. lia.
  - destruct Hv as [loc [dom [tld [-> [_ [Hl [_ [Hd [_ Ht]]]]]]]]].
    rewrite !count_occ_app.
    rewrite (count_occ_forallb isLocalChar loc), (count_occ_forallb isDomainChar dom),
      (count_occ_forallb isAlpha tld) by (assumption || reflexivity).
    reflexivity.
  - apply LocalAtDomainTld_chars in Hv. eapply Forall_impl; [|exact Hv].
    intros c [Hc | ->]; [now apply isLocalChar_ascii | reflexivity].
Qed.

Lemma accepted_email_facts_witness :
  fst (checkEmail (lit "a@b.co") (true, Errors.empty)) = true
  /\ 6 <= length (lit "a@b.co")
  /\ count_occ N.eq_dec (lit "a@b.co") 64%N = 1.
Proof.
  split; [reflexivity|].
  pose proof (accepted_email_facts (lit "a@b.co") eq_refl) as [H1 [H2 _]].
  split; [exact H1 | exact H2].
Defined.

Lemma validateForm_locals_setErrors (e : Errors.t) (s : State) :
  validateForm_locals (setErrors e s) = validateForm_locals s.
Proof. now destruct s. Qed.

Lemma setErrors_setErrors (e1 e2 : Errors.t) (s : State) :
  setErrors e2 (setErrors e1 s) = setErrors e2 s.
Proof. now destruct s. Qed.

(** X18. Submitting an invalid form a second time without touching it
    changes nothing: the state after two submits is the state after one. *)
Theorem invalid_submit_is_idempotent (s : State) (Hbad : fst (validateForm s) = false) :
  handleSubmitApplication (handleSubmitApplication s) = handleSubmitApplication s.
Proof.
  rewrite (handleSubmitApplication_invalid _ Hbad).
  assert (Hbad' : fst (validateForm (setErrors (snd (validateForm_locals s)) s)) = false).
  { rewrite validateForm_fst, validateForm_locals_setErrors, <- validateForm_fst.
    exact Hbad. }
  rewrite (handleSubmitApplication_invalid _ Hbad'), validateForm_locals_setErrors.
  apply setErrors_setErrors.
Qed.

Lemma invalid_submit_is_idempotent_witness :
  fst (validateForm partialForm) = false
  /\ handleSubmitApplication (handleSubmitApplication partialForm)
     = handleSubmitApplication partialForm.
Proof.
  assert (Hbad : fst (validateForm partialForm) = false) by (vm_compute; reflexivity).
  split; [exact Hbad | exact (invalid_submit_is_idempotent partialForm Hbad)].
Defined.

(** X19. After a successful submit the form is blank, so pressing Submit
    again before the modal closes fails validation: the four [required]
    messages appear while the success message stays, and no second timer
    is armed. *)
Theorem submit_again_after_success (s : State) (Hvalid : fst (validateForm s) = true) :
  let s1 := handleSubmitApplication s in
  let s2 := handleSubmitApplication s1 in
  fst (validateForm s1) = false
  /\ errors s2 = allRequired
  /\ feedbackMessage s2 = lit "Application submitted successfully!"
  /\ timers s2 = timers s1
  /\ modalVisible s2 = modalVisible s.
Proof.
  cbv zeta. rewrite (handleSubmitApplication_valid _ Hvalid).
  generalize (snd (validateForm_locals s)). intros e0.
  destruct s as [a b c d e f g h i j k l m n q p].
  cbn [setTimeout setErrors setWhyHire setContactNumber setEmail setName
       setFeedbackMessage lit].
  assert (Hbad : forall er,
            fst (validateForm (mkState a b c d e f [] [] [] []
                   (lit "Application submitted successfully!") er m n q
                   (p ++ [(q + 2000)%N]))) = false) by (intros er; reflexivity).
  split; [apply Hbad|]. rewrite (handleSubmitApplication_invalid _ (Hbad _)).
  repeat split.
Qed.

Lemma submit_again_after_success_witness :
  fst (validateForm filledForm) = true
  /\ errors (handleSubmitApplication (handleSubmitApplication filledForm)) = allRequired
  /\ feedbackMessage (handleSubmitApplication (handleSubmitApplication filledForm))
     = lit "Application submitted successfully!".
Proof.
  assert (Hok : fst (validateForm filledForm) = true) by (vm_compute; reflexivity).
  pose proof (submit_again_after_success filledForm Hok) as H.
  cbv zeta in H. destruct H as [_ [H1 [H2 _]]].
  split; [exact Hok|]. split; [exact H1 | exact H2].
Defined.

(** X20. Closing the form does not disarm the timer of a successful
    submit: when the user closes the form and opens it on another job, the
    modal is visible for that job, and once 2000 ms have passed since the
    submit it is hidden, with the job still selected. *)
Theorem close_keeps_timer_armed (s : State) (job : Job) (d : N)
        (Hvalid : fst (validateForm s) = true) (Hlate : (2000 <= d)%N) :
  let reopened := handleApplyPress job (handleCloseModal (handleSubmitApplication s)) in
  modalVisible reopened = true
  /\ timers reopened = timers s ++ [(clock s + 2000)%N]
  /\ modalVisible (elapse d reopened) = false
  /\ selectedJob (elapse d reopened) = Some job.
Proof.
  cbv zeta. rewrite (handleSubmitApplication_valid _ Hvalid).
  generalize (snd (validateForm_locals s)). intros e0.
  destruct s as [a b c d0 e f g h i j k l m n q p].
  cbn [setTimeout setErrors setWhyHire setContactNumber setEmail setName
       setFeedbackMessage setModalVisible setSelectedJob handleApplyPress
       handleCloseModal elapse modalVisible timers selectedJob clock].
  split; [reflexivity|]. split; [reflexivity|]. split; [|reflexivity].
  rewrite existsb_app. cbn [existsb].
  destruct (N.leb_spec (q + 2000) (q + d)); [|lia].
  now rewrite !orb_true_r.
Qed.

Lemma close_keeps_timer_armed_witness :
  fst (validateForm filledForm) = true /\ (2000 <= 2000)%N
  /\ modalVisible (handleApplyPress jobDesigner
                     (handleCloseModal (handleSubmitApplication filledForm))) = true
  /\ modalVisible (elapse 2000 (handleApplyPress jobDesigner
                     (handleCloseModal (handleSubmitApplication filledForm)))) = false.
Proof.
  assert (Hok : fst (validateForm filledForm) = true) by (vm_compute; reflexivity).
  assert (Hd : (2000 <= 2000)%N) by discriminate.
  pose proof (close_keeps_timer_armed filledForm jobDesigner 2000%N Hok Hd) as H.
  cbv zeta in H. destruct H as [H1 [_ [H2 _]]].
  split; [exact Hok|]. split; [exact Hd|]. split; [exact H1 | exact H2].
Defined.
